(** * ECS-OTel-Lab: the instrumentation harness of the poller and the catcher

    A shallow embedding of [src/app/main.py] (the Pokemon pinger, a polling
    loop) and [src/app2/main.py] (the Pokemon catcher, a Flask handler),
    and the properties of their resource-attribute parsing, work units and
    supervisor loop.

    Conventions of the embedding:
    - a Python [str] is a [string]; a character is a code point below 256;
    - a Python [int] is a [Z];
    - a Python [dict] with string keys is a [gmap string _];
    - statements run in a state-and-exception monad in which a raised
      exception keeps the mutations made before it, as in Python;
    - the OpenTelemetry objects (spans, counters), the logger, the standard
      output, the network and the clock are fields of an explicit state:
      each records what the program asked of it.  Calls into the telemetry
      API and the logger do not raise.  Exceptions are instances of
      [Exception] subclasses, the class the handlers of the source name. *)

From Stdlib Require Import ZArith String Ascii List QArith Lia.
From stdpp Require Import gmap strings list fin_maps pretty.

Local Open Scope string_scope.
Local Open Scope list_scope.
Local Open Scope Z_scope.

(** ** Python values *)

Module Py.

(** An exception object: [type(e).__name__] and [str(e)]. *)
Record exn := Exn { exc_type : string; exc_str : string }.

#[local] Set Warnings "-register-all".

(** A value decoded from JSON (what [response.json()] returns), which is
    also the shape of every value handed to [json.dumps] and to the
    telemetry API.  A float keeps its literal: no code inspects it. *)
Inductive json :=
| JNull
| JBool (b : bool)
| JInt (n : Z)
| JFloat (literal : string)
| JStr (s : string)
| JArr (items : list json)
| JObj (fields : list (string * json)).

(** [str(n)] for an [int]. *)
Definition str_int (n : Z) : string := pretty n.

(** [c.isspace()] on the code points below 256. *)
Definition isspace (c : ascii) : bool :=
  let n := nat_of_ascii c in
  ((9 <=? n)%nat && (n <=? 13)%nat || (28 <=? n)%nat && (n <=? 32)%nat
   || (n =? 133)%nat || (n =? 160)%nat).

(** [s.lstrip()], [s.rstrip()] and [s.strip()]. *)
Fixpoint lstrip (s : string) : string :=
  match s with
  | EmptyString => EmptyString
  | String c s' => if isspace c then lstrip s' else s
  end.

Fixpoint rstrip (s : string) : string :=
  match s with
  | EmptyString => EmptyString
  | String c s' =>
      match rstrip s' with
      | EmptyString => if isspace c then EmptyString else String c EmptyString
      | r => String c r
      end
  end.

Definition strip (s : string) : string := rstrip (lstrip s).

(** [s.split(sep)] for a one-character separator: every occurrence
    splits, empty pieces are kept, the result is never empty. *)
Fixpoint split (sep : ascii) (s : string) : list string :=
  match s with
  | EmptyString => [EmptyString]
  | String c s' =>
      if Ascii.eqb c sep then EmptyString :: split sep s'
      else match split sep s' with
           | [] => [String c EmptyString]
           | w :: ws => String c w :: ws
           end
  end.

(** [s.split(sep, 1)]: only the first occurrence splits. *)
Fixpoint split1 (sep : ascii) (s : string) : list string :=
  match s with
  | EmptyString => [EmptyString]
  | String c s' =>
      if Ascii.eqb c sep then [EmptyString; s']
      else match split1 sep s' with
           | [] => [String c EmptyString]
           | w :: ws => String c w :: ws
           end
  end.

(** [sep.join(pieces)], used to write override strings in statements. *)
Fixpoint join (sep : ascii) (pieces : list string) : string :=
  match pieces with
  | [] => EmptyString
  | [p] => p
  | p :: ps => p +:+ String sep (join sep ps)
  end.

(** [c in s]. *)
Fixpoint contains (c : ascii) (s : string) : bool :=
  match s with
  | EmptyString => false
  | String c' s' => Ascii.eqb c' c || contains c s'
  end.

(** [d.get(key, default)] on a decoded JSON object; on any other decoded
    value the attribute [get] does not exist. *)
Fixpoint assoc (key : string) (fields : list (string * json)) : option json :=
  match fields with
  | [] => None
  | (k, v) :: rest => if String.eqb k key then Some v else assoc key rest
  end.

End Py.
Import Py.

(** ** Statements: state and exceptions *)

Module Stmt.

Inductive result (A : Type) :=
| Ok (a : A)
| Raise (e : exn).
Arguments Ok {A} a.
Arguments Raise {A} e.

(** A statement over a state [S]: it returns or raises, and in both cases
    hands over the state it left. *)
Definition M (S A : Type) : Type := S -> result A * S.

Definition ret {S A} (a : A) : M S A := fun s => (Ok a, s).

Definition raise {S A} (e : exn) : M S A := fun s => (Raise e, s).

Definition bind {S A B} (c : M S A) (k : A -> M S B) : M S B :=
  fun s =>
    match c s with
    | (Ok a, s') => k a s'
    | (Raise e, s') => (Raise e, s')
    end.

(** A statement that only mutates the state. *)
Definition modify {S} (f : S -> S) : M S unit := fun s => (Ok tt, f s).

Definition read {S A} (f : S -> A) : M S A := fun s => (Ok (f s), s).

(** Lifting of a call that may raise without touching the state. *)
Definition lift {S A} (r : result A) : M S A := fun s => (r, s).

(** [try: c  except Exception as e: h e]. *)
Definition try_except {S A} (c : M S A) (h : exn -> M S A) : M S A :=
  fun s =>
    match c s with
    | (Ok a, s') => (Ok a, s')
    | (Raise e, s') => h e s'
    end.

(** [try: c  finally: f]: [f] runs on every exit of [c]; an exception of
    [f] replaces the outcome of [c]. *)
Definition try_finally {S A} (c : M S A) (f : M S unit) : M S A :=
  fun s =>
    match c s with
    | (r, s') =>
        match f s' with
        | (Ok _, s'') => (r, s'')
        | (Raise e, s'') => (Raise e, s'')
        end
    end.

(** [for x in xs: body x]. *)
Fixpoint for_each {S X} (xs : list X) (body : X -> M S unit) : M S unit :=
  match xs with
  | [] => ret tt
  | x :: rest => bind (body x) (fun _ => for_each rest body)
  end.

(** The statements form a monad in the sense of stdpp, whose notations
    [x ← c; k] and [c ;; k] sequence them. *)
#[export] Instance M_ret {S} : MRet (M S) := fun A => @ret S A.
#[export] Instance M_bind {S} : MBind (M S) := fun A B k c => @bind S A B c k.

End Stmt.
Import Stmt.

(** ** Logging *)

Module Logging.

Inductive level := INFO | WARNING | ERROR.

(** The payload of a log call or of [print]: a formatted text, or the
    value given to [json.dumps] (every [json] value serialises). *)
Inductive message :=
| Text (s : string)
| JsonDumps (j : json).

Record log_record := LogRecord { log_level : level; log_message : message }.

End Logging.
Import Logging.

(** ** The resource resolver (lines 36-48 of both services)

    [[
    resource_attributes = { SERVICE_NAME: ..., DEPLOYMENT_ENVIRONMENT: ... }
    resource_env_vars = os.getenv("OTEL_RESOURCE_ATTRIBUTES", "")
    if resource_env_vars:
        try:
            for pair in resource_env_vars.split(','):
                key, value = pair.split('=', 1)
                resource_attributes[key.strip()] = value.strip()
        except Exception as e:
            logger.warning(f"Could not parse OTEL_RESOURCE_ATTRIBUTES='{resource_env_vars}': {e}")
    ]] *)

Module Resolver.

Record state := State {
  resource_attributes : gmap string string;
  log : list log_record
}.

Definition SERVICE_NAME : string := "service.name".
Definition DEPLOYMENT_ENVIRONMENT : string := "deployment.environment".

(** [key, value = items]: the unpacking of a list into two names. *)
Definition unpack2 (items : list string) : result (string * string) :=
  match items with
  | [k; v] => Ok (k, v)
  | _ :: _ :: _ :: _ =>
      Raise (Exn "ValueError" "too many values to unpack (expected 2)")
  | _ =>
      Raise (Exn "ValueError"
               ("not enough values to unpack (expected 2, got "
                +:+ str_int (Z.of_nat (length items)) +:+ ")"))
  end.

Definition set_attribute (key value : string) : M state unit :=
  modify (fun s => State (<[key := value]> (resource_attributes s)) (log s)).

Definition logger_warning (msg : string) : M state unit :=
  modify (fun s => State (resource_attributes s)
                         (log s ++ [LogRecord WARNING (Text msg)])).

(** The body of the [for] loop. *)
Definition parse_pair (pair : string) : M state unit :=
  kv ← lift (unpack2 (split1 "=" pair));
  set_attribute (strip (fst kv)) (strip (snd kv)).

(** The [if resource_env_vars:] statement. *)
Definition parse_overrides (resource_env_vars : string) : M state unit :=
  if String.eqb resource_env_vars "" then ret tt
  else
    try_except
      (for_each (split "," resource_env_vars) parse_pair)
      (fun e =>
         logger_warning ("Could not parse OTEL_RESOURCE_ATTRIBUTES='"
                         +:+ resource_env_vars +:+ "': " +:+ exc_str e)).

(** Resolution over an arbitrary map of defaults. *)
Definition resolve (defaults : gmap string string) (resource_env_vars : string)
  : result unit * state :=
  parse_overrides resource_env_vars (State defaults []).

(** The defaults of the two services. *)
Definition default_attributes (service_name deployment_environment : string)
  : gmap string string :=
  <[DEPLOYMENT_ENVIRONMENT := deployment_environment]>
    (<[SERVICE_NAME := service_name]> ∅).

End Resolver.


(** ** The telemetry objects

    What the services ask of the OpenTelemetry API: attributes, a status
    and recorded exceptions on a span, measurements on a counter. *)

Module StatusCode.
Inductive t := UNSET | OK | ERROR.
End StatusCode.

Module Otel.

(** [Status(status_code, description)]. *)
Record Status := MkStatus {
  code : StatusCode.t;
  description : option string
}.

Record span := Span {
  span_name : string;
  attributes : gmap string json;
  status : Status;
  recorded_exceptions : list exn;
  ended : bool
}.

Definition new_span (name : string) : span :=
  Span name ∅ (MkStatus StatusCode.UNSET None) [] false.

(** [span.set_attribute(key, value)]. *)
Definition set_attribute (key : string) (value : json) (sp : span) : span :=
  Span (span_name sp) (<[key := value]> (attributes sp)) (status sp)
       (recorded_exceptions sp) (ended sp).

(** [span.set_status(st)]. *)
Definition set_status (st : Status) (sp : span) : span :=
  Span (span_name sp) (attributes sp) st (recorded_exceptions sp) (ended sp).

(** [span.record_exception(e)]. *)
Definition record_exception (e : exn) (sp : span) : span :=
  Span (span_name sp) (attributes sp) (status sp)
       (recorded_exceptions sp ++ [e]) (ended sp).

(** [span.end()]. *)
Definition end_span (sp : span) : span :=
  Span (span_name sp) (attributes sp) (status sp) (recorded_exceptions sp) true.

(** One [counter.add(amount, attributes)]. *)
Record measurement := Measurement {
  amount : Z;
  labels : gmap string json
}.

(** A counter is the sequence of measurements it has received; a negative
    amount is refused by the API. *)
Definition counter := list measurement.

Definition add (amount : Z) (labels : gmap string json) (c : counter) : counter :=
  if amount <? 0 then c else c ++ [Measurement amount labels].

(** The value of a counter: the sum of its measurements. *)
Definition value (c : counter) : Z :=
  fold_right (fun m acc => amount m + acc) 0 c.

End Otel.

(** ** The poller: [src/app/main.py] *)

Module Poller.

(** What [session.get] returns: the status code and the outcome of
    [response.json()]. *)
Record response := Response {
  status_code : Z;
  json_body : result json
}.

(** What one iteration draws from outside the program: the random source
    and the network, which answers a URL with a response or raises. *)
Record env := Env {
  random_bits : N;
  network : string -> result response
}.

(** The state the loop acts on.  [pokemon_id] is the local variable of
    the loop body, which the handler reads after the [try] body assigned
    it; [loop_span] is the span of the running [with] block. *)
Record world := World {
  pokemon_id : Z;
  loop_span : option Otel.span;
  finished_spans : list Otel.span;
  pokemon_fetch_counter : Otel.counter;
  pokemon_fetch_success_counter : Otel.counter;
  pokemon_fetch_error_counter : Otel.counter;
  log : list log_record;
  stdout : list message;
  requests : list string;
  slept : list Z
}.

Definition set_pokemon_id (n : Z) (w : world) : world :=
  World n (loop_span w) (finished_spans w) (pokemon_fetch_counter w)
    (pokemon_fetch_success_counter w) (pokemon_fetch_error_counter w)
    (log w) (stdout w) (requests w) (slept w).

Definition set_loop_span (sp : option Otel.span) (w : world) : world :=
  World (pokemon_id w) sp (finished_spans w) (pokemon_fetch_counter w)
    (pokemon_fetch_success_counter w) (pokemon_fetch_error_counter w)
    (log w) (stdout w) (requests w) (slept w).

Definition set_finished_spans (l : list Otel.span) (w : world) : world :=
  World (pokemon_id w) (loop_span w) l (pokemon_fetch_counter w)
    (pokemon_fetch_success_counter w) (pokemon_fetch_error_counter w)
    (log w) (stdout w) (requests w) (slept w).

Definition set_fetch_counter (c : Otel.counter) (w : world) : world :=
  World (pokemon_id w) (loop_span w) (finished_spans w) c
    (pokemon_fetch_success_counter w) (pokemon_fetch_error_counter w)
    (log w) (stdout w) (requests w) (slept w).

Definition set_success_counter (c : Otel.counter) (w : world) : world :=
  World (pokemon_id w) (loop_span w) (finished_spans w) (pokemon_fetch_counter w)
    c (pokemon_fetch_error_counter w)
    (log w) (stdout w) (requests w) (slept w).

Definition set_error_counter (c : Otel.counter) (w : world) : world :=
  World (pokemon_id w) (loop_span w) (finished_spans w) (pokemon_fetch_counter w)
    (pokemon_fetch_success_counter w) c
    (log w) (stdout w) (requests w) (slept w).

Definition set_log (l : list log_record) (w : world) : world :=
  World (pokemon_id w) (loop_span w) (finished_spans w) (pokemon_fetch_counter w)
    (pokemon_fetch_success_counter w) (pokemon_fetch_error_counter w)
    l (stdout w) (requests w) (slept w).

Definition set_stdout (l : list message) (w : world) : world :=
  World (pokemon_id w) (loop_span w) (finished_spans w) (pokemon_fetch_counter w)
    (pokemon_fetch_success_counter w) (pokemon_fetch_error_counter w)
    (log w) l (requests w) (slept w).

Definition set_requests (l : list string) (w : world) : world :=
  World (pokemon_id w) (loop_span w) (finished_spans w) (pokemon_fetch_counter w)
    (pokemon_fetch_success_counter w) (pokemon_fetch_error_counter w)
    (log w) (stdout w) l (slept w).

Definition set_slept (l : list Z) (w : world) : world :=
  World (pokemon_id w) (loop_span w) (finished_spans w) (pokemon_fetch_counter w)
    (pokemon_fetch_success_counter w) (pokemon_fetch_error_counter w)
    (log w) (stdout w) (requests w) l.

(** *** The calls of the loop body *)

(** [random.randint(a, b)]: an integer of the closed range [a..b]. *)
Definition randint (a b : Z) (bits : N) : Z :=
  a + Z.of_N bits mod (b - a + 1).

(** A method call on [loop_span]. *)
Definition on_loop_span (f : Otel.span -> Otel.span) : M world unit :=
  modify (fun w => set_loop_span (f <$> loop_span w) w).

Definition logger_log (lvl : level) (msg : message) : M world unit :=
  modify (fun w => set_log (log w ++ [LogRecord lvl msg]) w).

(** [print(..., flush=True)]. *)
Definition print (msg : message) : M world unit :=
  modify (fun w => set_stdout (stdout w ++ [msg]) w).

(** [session.get(url, timeout=5)]. *)
Definition session_get (e : env) (url : string) : M world response :=
  modify (fun w => set_requests (requests w ++ [url]) w) ;;
  lift (network e url).

(** [time.sleep(secs)], which refuses a negative length. *)
Definition time_sleep (secs : Z) : M world unit :=
  if secs <? 0
  then raise (Exn "ValueError" "sleep length must be non-negative")
  else modify (fun w => set_slept (slept w ++ [secs]) w).

(** The name of the type of a decoded value. *)
Definition type_name (j : json) : string :=
  match j with
  | JNull => "NoneType"
  | JBool _ => "bool"
  | JInt _ => "int"
  | JFloat _ => "float"
  | JStr _ => "str"
  | JArr _ => "list"
  | JObj _ => "dict"
  end.

(** [data.get(key, default)]: only a [dict] has the method. *)
Definition data_get (data : json) (key : string) (default : json) : result json :=
  match data with
  | JObj fields =>
      Ok (match assoc key fields with Some v => v | None => default end)
  | other =>
      Raise (Exn "AttributeError"
               ("'" +:+ type_name other +:+ "' object has no attribute 'get'"))
  end.

Definition fetch_counter_add (amount : Z) (labels : gmap string json) : M world unit :=
  modify (fun w => set_fetch_counter (Otel.add amount labels (pokemon_fetch_counter w)) w).

Definition success_counter_add (amount : Z) (labels : gmap string json) : M world unit :=
  modify (fun w =>
            set_success_counter (Otel.add amount labels (pokemon_fetch_success_counter w)) w).

Definition error_counter_add (amount : Z) (labels : gmap string json) : M world unit :=
  modify (fun w =>
            set_error_counter (Otel.add amount labels (pokemon_fetch_error_counter w)) w).

(** [with tracer.start_as_current_span(name) as loop_span: body].  The
    span is made current for the body; on exit, an exception that leaves
    the body is recorded on the span with an error status, the span is
    ended on every path and the previous current span is restored. *)
Definition start_as_current_span {A} (name : string) (body : M world A) : M world A :=
  fun w =>
    let '(r, w1) := body (set_loop_span (Some (Otel.new_span name)) w) in
    let on_exit sp :=
      match r with
      | Ok _ => sp
      | Raise e =>
          Otel.set_status
            (Otel.MkStatus StatusCode.ERROR (Some (exc_type e +:+ ": " +:+ exc_str e)))
            (Otel.record_exception e sp)
      end in
    (r, match loop_span w1 with
        | Some sp =>
            set_loop_span (loop_span w)
              (set_finished_spans (finished_spans w1 ++ [Otel.end_span (on_exit sp)]) w1)
        | None => set_loop_span (loop_span w) w1
        end).

(** *** The loop (lines 99-152) *)

Section Loop.

(** [INTERVAL_SEC = int(os.getenv("INTERVAL_SEC", 30))], read once. *)
Variable INTERVAL_SEC : Z.

(** Lines 103-138: the body of the [try]. *)
Definition try_body (e : env) : M world unit :=
  modify (set_pokemon_id (randint 1 300 (random_bits e))) ;;
  id ← read pokemon_id;
  on_loop_span (Otel.set_attribute "pokemon.id.attempted" (JInt id)) ;;
  fetch_counter_add 1 {[ "pokemon.id" := JStr (str_int id) ]} ;;
  logger_log INFO
    (JsonDumps (JObj [("message", JStr ("fetching number " +:+ str_int id))])) ;;
  let url := "https://pokeapi.co/api/v2/pokemon/" +:+ str_int id in
  response ← session_get e url;
  let status := status_code response in
  on_loop_span (Otel.set_attribute "http.status_code" (JInt status)) ;;
  if status =? 200 then
    data ← lift (json_body response);
    pokemon_name ← lift (data_get data "name" (JStr "unknown"));
    on_loop_span (Otel.set_attribute "pokemon.name" pokemon_name) ;;
    on_loop_span (Otel.set_status (Otel.MkStatus StatusCode.OK None)) ;;
    success_counter_add 1
      (<["pokemon.name" := pokemon_name]> {[ "pokemon.id" := JStr (str_int id) ]}) ;;
    logger_log INFO
      (JsonDumps (JObj [("pokemon_id", JInt id);
                        ("pokemon_name", pokemon_name);
                        ("status", JInt 200)]))
  else
    let error_message := "HTTP " +:+ str_int status in
    on_loop_span (Otel.set_attribute "error.message" (JStr error_message)) ;;
    on_loop_span
      (Otel.set_status
         (Otel.MkStatus StatusCode.ERROR
            (Some ("PokeAPI request failed with status " +:+ str_int status)))) ;;
    error_counter_add 1
      (<["http.status_code" := JStr (str_int status)]>
         {[ "pokemon.id" := JStr (str_int id) ]}) ;;
    logger_log WARNING
      (JsonDumps (JObj [("pokemon_id", JInt id);
                        ("error", JStr error_message);
                        ("status", JInt status)])).

(** Lines 140-149: [except Exception as e]. *)
Definition except_handler (e : exn) : M world unit :=
  id ← read pokemon_id;
  logger_log Logging.ERROR
    (Text ("Exception during fetch for ID " +:+ str_int id +:+ ": " +:+ exc_str e)) ;;
  on_loop_span (Otel.record_exception e) ;;
  on_loop_span
    (Otel.set_status
       (Otel.MkStatus StatusCode.ERROR (Some ("Exception: " +:+ exc_str e)))) ;;
  error_counter_add 1
    (<["exception.type" := JStr (exc_type e)]>
       {[ "pokemon.id" := JStr (str_int id) ]}) ;;
  print (JsonDumps (JObj [("pokemon_id", JInt id); ("error", JStr (exc_str e))])).

(** Lines 101-149: the work unit, [pokemon_id = 0] and the [try] with
    its handler. *)
Definition work_unit (e : env) : M world unit :=
  modify (set_pokemon_id 0) ;;
  try_except (try_body e) except_handler.

(** Lines 101-152: the body of the [with] block, where the [finally]
    clause of the same [try] sleeps. *)
Definition span_body (e : env) : M world unit :=
  modify (set_pokemon_id 0) ;;
  try_finally (try_except (try_body e) except_handler) (time_sleep INTERVAL_SEC).

(** Lines 100-152: one iteration of [while True]. *)
Definition iteration (e : env) : M world unit :=
  start_as_current_span "fetch_pokemon_loop" (span_body e).

(** [while True], run over the successive draws of the environment: the
    loop has no exit of its own, and stops only when an iteration raises. *)
Definition main_loop (envs : list env) : M world unit :=
  for_each envs iteration.

End Loop.

(** The state in which the loop starts: no span, counters at zero. *)
Definition initial_world : world :=
  World 0 None [] [] [] [] [] [] [] [].

End Poller.

(** ** The catcher: [src/app2/main.py] *)

Module Catcher.

(** The response of the view: [jsonify(log)] answers 200 with the body. *)
Record http_response := HttpResponse {
  http_status : Z;
  body : json
}.

Definition jsonify (j : json) : http_response := HttpResponse 200 j.

(** The state the handler acts on: the span of the running request, the
    three counters and the log. *)
Record world := World {
  current_span : Otel.span;
  pokemon_catch_attempt_counter : Otel.counter;
  pokemon_catch_success_counter : Otel.counter;
  pokemon_catch_failure_counter : Otel.counter;
  log : list log_record
}.

Definition on_current_span (f : Otel.span -> Otel.span) : M world unit :=
  modify (fun w => World (f (current_span w)) (pokemon_catch_attempt_counter w)
                     (pokemon_catch_success_counter w)
                     (pokemon_catch_failure_counter w) (log w)).

Definition attempt_counter_add (amount : Z) (labels : gmap string json) : M world unit :=
  modify (fun w => World (current_span w)
                     (Otel.add amount labels (pokemon_catch_attempt_counter w))
                     (pokemon_catch_success_counter w)
                     (pokemon_catch_failure_counter w) (log w)).

Definition success_counter_add (amount : Z) (labels : gmap string json) : M world unit :=
  modify (fun w => World (current_span w) (pokemon_catch_attempt_counter w)
                     (Otel.add amount labels (pokemon_catch_success_counter w))
                     (pokemon_catch_failure_counter w) (log w)).

Definition failure_counter_add (amount : Z) (labels : gmap string json) : M world unit :=
  modify (fun w => World (current_span w) (pokemon_catch_attempt_counter w)
                     (pokemon_catch_success_counter w)
                     (Otel.add amount labels (pokemon_catch_failure_counter w)) (log w)).

Definition logger_info (msg : message) : M world unit :=
  modify (fun w => World (current_span w) (pokemon_catch_attempt_counter w)
                     (pokemon_catch_success_counter w)
                     (pokemon_catch_failure_counter w)
                     (log w ++ [LogRecord INFO msg])).

(** [x < 0.5] on the value [x] of [random.random()], a rational. *)
Definition below_half (x : Q) : bool :=
  match (x ?= 1 # 2)%Q with
  | Lt => true
  | _ => false
  end.

(** Lines 100-120: the view of [/catch/<int:pkmn_id>]; [draw] is what
    [random.random()] returns in this call. *)
Definition catch (pkmn_id : Z) (draw : Q) : M world http_response :=
  on_current_span (Otel.set_attribute "pokemon.id.caught" (JInt pkmn_id)) ;;
  let caught := below_half draw in
  let log := JObj [("pokemon_id", JInt pkmn_id); ("caught", JBool caught)] in
  on_current_span (Otel.set_attribute "pokemon.caught_result" (JBool caught)) ;;
  attempt_counter_add 1 {[ "pokemon.id" := JStr (str_int pkmn_id) ]} ;;
  (if caught
   then success_counter_add 1 {[ "pokemon.id" := JStr (str_int pkmn_id) ]}
   else failure_counter_add 1 {[ "pokemon.id" := JStr (str_int pkmn_id) ]}) ;;
  logger_info (JsonDumps log) ;;
  mret (jsonify log).

End Catcher.

(** ** The vocabulary of the statements *)

Module Spec.

(** An override string written from its pairs: [k1=v1,k2=v2,...]. *)
Definition render_pair (kv : string * string) : string :=
  kv.1 +:+ String "=" kv.2.

Definition render (kvs : list (string * string)) : string :=
  join "," (map render_pair kvs).

(** A pair that reads back as written: its key holds no ['='], and
    neither part holds the [','] that separates pairs.  The value may
    hold ['=']. *)
Definition well_formed_pair (kv : string * string) : Prop :=
  contains "=" kv.1 = false ∧ contains "," kv.1 = false ∧ contains "," kv.2 = false.

(** One assignment [resource_attributes[key.strip()] = value.strip()]. *)
Definition assign (m : gmap string string) (kv : string * string)
  : gmap string string :=
  <[strip kv.1 := strip kv.2]> m.

(** The overrides a list of pairs stands for: keys and values trimmed,
    a later pair replacing an earlier one with the same key. *)
Definition overrides_of (kvs : list (string * string)) : gmap string string :=
  list_to_map (reverse (map (fun kv => (strip kv.1, strip kv.2)) kvs)).

(** The defaults merged with the overrides, an override winning. *)
Definition merged (defaults : gmap string string) (kvs : list (string * string))
  : gmap string string :=
  overrides_of kvs ∪ defaults.

(** Every pair of the override string that splits at an ['='] has its
    key in the resolved attributes. *)
Definition every_well_formed_pair_kept
    (defaults : gmap string string) (resource_env_vars : string) : Prop :=
  ∀ pair k v,
    pair ∈ split "," resource_env_vars →
    split1 "=" pair = [k; v] →
    is_Some
      (Resolver.resource_attributes (Resolver.resolve defaults resource_env_vars).2
         !! strip k).

(** The warning the resolver logs when unpacking a pair without ['=']. *)
Definition parse_warning (resource_env_vars : string) : log_record :=
  LogRecord WARNING
    (Text ("Could not parse OTEL_RESOURCE_ATTRIBUTES='" +:+ resource_env_vars
           +:+ "': not enough values to unpack (expected 2, got 1)")).

(** The identifier an iteration of the poller selects, and the URL it
    then fetches. *)
Definition chosen_id (e : Poller.env) : Z :=
  Poller.randint 1 300 (Poller.random_bits e).

Definition fetched_url (e : Poller.env) : string :=
  "https://pokeapi.co/api/v2/pokemon/" +:+ str_int (chosen_id e).

(** The [name] field of a decoded object, ["unknown"] when absent. *)
Definition name_field (fields : list (string * json)) : json :=
  default (JStr "unknown") (assoc "name" fields).

(** The span carries [msg] as its [error.message] attribute and has an
    error status described by that same message. *)
Definition error_with_message (msg : string) (sp : Otel.span) : Prop :=
  Otel.attributes sp !! "error.message" = Some (JStr msg)
  ∧ Otel.status sp = Otel.MkStatus StatusCode.ERROR (Some msg).

(** The label every measurement of an iteration carries for its id. *)
Definition labelled_with_id (id : Z) (m : Otel.measurement) : Prop :=
  Otel.labels m !! "pokemon.id" = Some (JStr (str_int id)).

(** Sample inputs: a response with status 404. *)
Definition env_404 : Poller.env :=
  Poller.Env 6 (fun _ => Ok (Poller.Response 404 (Raise (Exn "JSONDecodeError" "Expecting value")))).

(** A network that refuses the connection. *)
Definition env_refused : Poller.env :=
  Poller.Env 6 (fun _ => Raise (Exn "ConnectionError" "connection refused")).

(** A response with status 200 whose body is an object with a name. *)
Definition env_200 : Poller.env :=
  Poller.Env 24 (fun _ => Ok (Poller.Response 200 (Ok (JObj [("id", JInt 25); ("name", JStr "pikachu")])))).

(** The initial state with the span of the block opened. *)
Definition in_span : Poller.world :=
  Poller.set_loop_span (Some (Otel.new_span "fetch_pokemon_loop")) Poller.initial_world.

(** The counter received exactly one measurement, of amount 1. *)
Definition incremented_once (before after : Otel.counter) : Prop :=
  ∃ labels, after = before ++ [Otel.Measurement 1 labels].

End Spec.
Import Spec.

(** ** The start of a service (lines 31-50 of both services)

    [[
    service_name = os.getenv("OTEL_SERVICE_NAME", "pokemon-pinger-default")
    deployment_environment = os.getenv("DEPLOYMENT_ENVIRONMENT", "unknown")
    resource_attributes = { SERVICE_NAME: service_name,
                            DEPLOYMENT_ENVIRONMENT: deployment_environment }
    resource_env_vars = os.getenv("OTEL_RESOURCE_ATTRIBUTES", "")
    ...
    resource = Resource(attributes=resource_attributes)
    ]] *)

Module Bootstrap.

(** [os.getenv(name, default)]: the value of a variable that is set,
    even to the empty string, and [default] for one that is not. *)
Definition getenv (environ : gmap string string) (name default : string) : string :=
  match environ !! name with
  | Some v => v
  | None => default
  end.

Section Service.

(** The fallback name, ["pokemon-pinger-default"] for the poller and
    ["pokemon-catcher-default"] for the catcher, and the environment of
    the process. *)
Variable default_service_name : string.
Variable environ : gmap string string.

Definition service_name : string :=
  getenv environ "OTEL_SERVICE_NAME" default_service_name.

Definition deployment_environment : string :=
  getenv environ "DEPLOYMENT_ENVIRONMENT" "unknown".

Definition resource_env_vars : string :=
  getenv environ "OTEL_RESOURCE_ATTRIBUTES" "".

(** Lines 36-48 run on the values read above; the attributes of the
    state they leave are those of [resource]. *)
Definition resource : result unit * Resolver.state :=
  Resolver.resolve
    (Resolver.default_attributes service_name deployment_environment)
    resource_env_vars.

End Service.

End Bootstrap.

(** ** The heartbeat of the catcher (lines 122-126)

    [[
    def heartbeat():
        while True:
            logger.info(json.dumps({"heartbeat": time.time()}))
            time.sleep(INTERVAL_SEC)
    ]] *)

Module Heartbeat.

(** The thread shares the logger with the handler, hence the state of
    the handler, and has the sleeps of its own. *)
Record server := Server {
  handler : Catcher.world;
  slept : list Z
}.

Definition logger_info (msg : message) : M server unit :=
  modify (fun s =>
            Server
              (Catcher.World (Catcher.current_span (handler s))
                 (Catcher.pokemon_catch_attempt_counter (handler s))
                 (Catcher.pokemon_catch_success_counter (handler s))
                 (Catcher.pokemon_catch_failure_counter (handler s))
                 (Catcher.log (handler s) ++ [LogRecord INFO msg]))
              (slept s)).

(** [time.sleep(secs)], which refuses a negative length. *)
Definition time_sleep (secs : Z) : M server unit :=
  if secs <? 0
  then raise (Exn "ValueError" "sleep length must be non-negative")
  else modify (fun s => Server (handler s) (slept s ++ [secs])).

Section Loop.

(** [INTERVAL_SEC = int(os.getenv("INTERVAL_SEC", "10"))], read once. *)
Variable INTERVAL_SEC : Z.

(** One turn of the loop; [now] is the literal of the float that
    [time.time()] returns in this turn. *)
Definition tick (now : string) : M server unit :=
  logger_info (JsonDumps (JObj [("heartbeat", JFloat now)])) ;;
  time_sleep INTERVAL_SEC.

(** [while True], run over the successive readings of the clock. *)
Definition heartbeat (clock : list string) : M server unit :=
  for_each clock tick.

End Loop.

End Heartbeat.

(** ** More vocabulary *)

Module Vocabulary.

(** The key and the value a piece of an override string splits into,
    when it holds an ['=']. *)
Definition pair_of (piece : string) : option (string * string) :=
  match split1 "=" piece with
  | [k; v] => Some (k, v)
  | _ => None
  end.

(** The pairs of the pieces that come before the first piece without
    ['=']. *)
Fixpoint parsed_prefix (pieces : list string) : list (string * string) :=
  match pieces with
  | [] => []
  | piece :: rest =>
      match pair_of piece with
      | Some kv => kv :: parsed_prefix rest
      | None => []
      end
  end.

(** The record one turn of the heartbeat logs. *)
Definition heartbeat_record (now : string) : log_record :=
  LogRecord INFO (JsonDumps (JObj [("heartbeat", JFloat now)])).

(** The exception of [time.sleep] on a negative length. *)
Definition negative_sleep : exn :=
  Exn "ValueError" "sleep length must be non-negative".

(** The counters of the poller balance: the attempts received since [w]
    are the successes plus the errors received since [w]. *)
Definition poller_balance (w w' : Poller.world) : Prop :=
  Otel.value (Poller.pokemon_fetch_counter w')
  - Otel.value (Poller.pokemon_fetch_counter w)
  = (Otel.value (Poller.pokemon_fetch_success_counter w')
     - Otel.value (Poller.pokemon_fetch_success_counter w))
    + (Otel.value (Poller.pokemon_fetch_error_counter w')
       - Otel.value (Poller.pokemon_fetch_error_counter w)).

(** Sample inputs: a response of status 200 whose body is no JSON, and
    one whose body decodes to a list. *)
Definition env_200_html : Poller.env :=
  Poller.Env 6
    (fun _ => Ok (Poller.Response 200 (Raise (Exn "JSONDecodeError" "Expecting value")))).

Definition env_200_list : Poller.env :=
  Poller.Env 6 (fun _ => Ok (Poller.Response 200 (Ok (JArr [JStr "pikachu"])))).



End Vocabulary.
Import Vocabulary.

(** ** Facts on the string operations *)

Section Strings.

Variable sep : ascii.

Lemma split_not_nil s : split sep s ≠ [].
Proof.
  destruct s as [|c s]; simpl; [done|].
  destruct (Ascii.eqb c sep); [done|]. by destruct (split sep s).
Qed.

Lemma split_no_sep s : contains sep s = false → split sep s = [s].
Proof.
  induction s as [|c s IH]; simpl; [done|].
  intros [Hc Hs]%orb_false_elim. rewrite Hc, (IH Hs). done.
Qed.

Lemma split_app_sep p rest :
  contains sep p = false →
  split sep (p +:+ String sep rest) = p :: split sep rest.
Proof.
  induction p as [|c p IH]; simpl.
  - intros _. by rewrite Ascii.eqb_refl.
  - intros [Hc Hp]%orb_false_elim. rewrite Hc, (IH Hp). done.
Qed.

Lemma split_join ps :
  ps ≠ [] → Forall (fun p => contains sep p = false) ps →
  split sep (join sep ps) = ps.
Proof.
  induction ps as [|p ps IH]; [done|]. intros _ Hall.
  apply Forall_cons in Hall as [Hp Hps].
  destruct ps as [|q ps].
  - simpl. by apply split_no_sep.
  - change (join sep (p :: q :: ps)) with (p +:+ String sep (join sep (q :: ps))).
    rewrite split_app_sep by done. f_equal. by apply IH.
Qed.

Lemma split1_no_sep s : contains sep s = false → split1 sep s = [s].
Proof.
  induction s as [|c s IH]; simpl; [done|].
  intros [Hc Hs]%orb_false_elim. rewrite Hc, (IH Hs). done.
Qed.

Lemma split1_app_sep k v :
  contains sep k = false → split1 sep (k +:+ String sep v) = [k; v].
Proof.
  induction k as [|c k IH]; simpl.
  - intros _. by rewrite Ascii.eqb_refl.
  - intros [Hc Hk]%orb_false_elim. rewrite Hc, (IH Hk). done.
Qed.

Lemma contains_app c s t :
  contains c (s +:+ t) = contains c s || contains c t.
Proof.
  induction s as [|c' s IH]; simpl; [done|]. by rewrite IH, orb_assoc.
Qed.

End Strings.

(** Trimming: the head of a left-trimmed string is no space, a
    right-trimmed string ends on no space, and trimming twice is
    trimming once. *)
Section Trimming.

Lemma lstrip_head s :
  lstrip s = "" ∨ ∃ c t, lstrip s = String c t ∧ isspace c = false.
Proof.
  induction s as [|c s IH]; simpl; [by left|].
  destruct (isspace c) eqn:Hc; [done|]. right. eauto.
Qed.

Lemma rstrip_cons c t :
  isspace c = false → rstrip (String c t) = String c (rstrip t).
Proof. intros Hc. simpl. rewrite Hc. by destruct (rstrip t). Qed.

Lemma rstrip_idempotent s : rstrip (rstrip s) = rstrip s.
Proof.
  induction s as [|c s IH]; simpl; [done|].
  destruct (rstrip s) as [|c' r] eqn:Hr.
  - destruct (isspace c) eqn:Hc; simpl; [done|]. by rewrite Hc.
  - change (rstrip (String c (String c' r))) with
      (match rstrip (String c' r) with
       | EmptyString => if isspace c then EmptyString else String c EmptyString
       | r' => String c r'
       end).
    by rewrite IH.
Qed.

Lemma strip_idempotent s : strip (strip s) = strip s.
Proof.
  unfold strip. destruct (lstrip_head s) as [->|(c & t & -> & Hc)]; [done|].
  rewrite rstrip_cons by done. simpl lstrip. rewrite Hc.
  rewrite rstrip_cons by done. by rewrite rstrip_idempotent.
Qed.

End Trimming.

(** ** The resource resolver *)

Section ResolverFacts.

Import Resolver.

Lemma for_each_app {S X} (xs ys : list X) (body : X → M S unit) (s : S) :
  for_each (xs ++ ys) body s =
    match for_each xs body s with
    | (Ok _, s') => for_each ys body s'
    | (Raise e, s') => (Raise e, s')
    end.
Proof.
  revert s. induction xs as [|x xs IH]; intros s; simpl; [done|].
  unfold bind. destruct (body x s) as [[[]|e] s']; [apply IH | done].
Qed.

Lemma parse_pair_well_formed kv m l :
  well_formed_pair kv →
  parse_pair (render_pair kv) (State m l) = (Ok tt, State (assign m kv) l).
Proof.
  intros (Hk & _ & _). unfold parse_pair, render_pair, mbind, M_bind, bind, lift.
  by rewrite split1_app_sep.
Qed.

Lemma parse_pair_malformed bad st :
  contains "=" bad = false →
  parse_pair bad st =
    (Raise (Exn "ValueError" "not enough values to unpack (expected 2, got 1)"), st).
Proof.
  intros Hbad. unfold parse_pair, mbind, M_bind, bind, lift.
  by rewrite split1_no_sep.
Qed.

Lemma for_each_well_formed kvs m l :
  Forall well_formed_pair kvs →
  for_each (map render_pair kvs) parse_pair (State m l)
  = (Ok tt, State (foldl assign m kvs) l).
Proof.
  intros Hall. revert m. induction Hall as [|kv kvs Hkv _ IH]; intros m; [done|].
  simpl. unfold bind at 1. rewrite parse_pair_well_formed by done. apply IH.
Qed.

Lemma foldl_assign_merged defaults kvs :
  foldl assign defaults kvs = merged defaults kvs.
Proof.
  unfold merged, overrides_of.
  induction kvs as [|kv kvs IH] using rev_ind.
  - simpl. by rewrite (left_id_L ∅ (∪)).
  - rewrite foldl_app, map_app, reverse_app. simpl.
    rewrite IH. unfold assign at 1. by rewrite insert_union_l.
Qed.

Lemma render_pair_no_comma kv :
  well_formed_pair kv → contains "," (render_pair kv) = false.
Proof.
  intros (_ & Hk & Hv). unfold render_pair. rewrite contains_app. simpl.
  by rewrite Hk, Hv.
Qed.

Lemma render_cons_nonempty kv kvs : render (kv :: kvs) ≠ "".
Proof.
  unfold render. destruct kv as [k v], kvs as [|kv' kvs]; simpl;
    unfold render_pair; simpl; by destruct k.
Qed.

Lemma parse_overrides_nonempty s st :
  s ≠ "" →
  parse_overrides s st =
    try_except (for_each (split "," s) parse_pair)
      (fun e => logger_warning
                  ("Could not parse OTEL_RESOURCE_ATTRIBUTES='" +:+ s +:+ "': "
                   +:+ exc_str e)) st.
Proof.
  intros Hs. unfold parse_overrides.
  by destruct (String.eqb_spec s "").
Qed.

(** Resolution returns normally on every input. *)
Lemma resolve_returns defaults s : (resolve defaults s).1 = Ok tt.
Proof.
  unfold resolve, parse_overrides. destruct (String.eqb s ""); [done|].
  unfold try_except.
  by destruct (for_each _ _ _) as [[[]|e] st].
Qed.

(** C7: for every map of defaults and every override string written as
    a comma-separated list of [key=value] pairs, resolution splits each
    pair at its first ['='], trims key and value, and returns the
    defaults merged with the overrides: an override wins over a default,
    a later pair over an earlier one.  Nothing is logged. *)
Theorem resolve_merges_overrides (defaults : gmap string string)
    (kvs : list (string * string)) :
  Forall well_formed_pair kvs →
  resolve defaults (render kvs) = (Ok tt, State (merged defaults kvs) []).
Proof.
  intros Hall. unfold resolve.
  destruct kvs as [|kv kvs].
  - unfold merged, overrides_of. simpl. by rewrite (left_id_L ∅ (∪)).
  - rewrite parse_overrides_nonempty by apply render_cons_nonempty.
    unfold try_except, render. rewrite split_join.
    + rewrite for_each_well_formed by done. by rewrite foldl_assign_merged.
    + done.
    + apply Forall_map. eapply Forall_impl; [exact Hall|].
      intros kv'. apply render_pair_no_comma.
Qed.

(** The example of the specification: ["team= rockets ,  x=1"] over the
    defaults of the poller. *)
Lemma resolve_merges_overrides_witness :
  let defaults := default_attributes "pokemon-pinger-default" "unknown" in
  let r := resolve defaults "team= rockets ,  x=1" in
  Forall well_formed_pair [("team", " rockets "); ("  x", "1")]
  ∧ r.1 = Ok tt
  ∧ resource_attributes r.2 !! "team" = Some "rockets"
  ∧ resource_attributes r.2 !! "x" = Some "1"
  ∧ resource_attributes r.2 !! "service.name" = Some "pokemon-pinger-default"
  ∧ log r.2 = [].
Proof.
  intros defaults r.
  assert (Hwf : Forall well_formed_pair [("team", " rockets "); ("  x", "1")])
    by (repeat constructor).
  split; [exact Hwf|].
  pose proof (resolve_merges_overrides defaults _ Hwf) as Hr.
  change (render [("team", " rockets "); ("  x", "1")])
    with "team= rockets ,  x=1" in Hr.
  subst r. rewrite Hr. simpl. repeat split.
Defined.

(** Only the first ['='] of a pair splits it, and a later pair replaces
    an earlier one with the same key. *)
Example resolve_first_equals_sign :
  resource_attributes (resolve ∅ "a=b=c").2 !! "a" = Some "b=c".
Proof. reflexivity. Qed.

Example resolve_later_pair_wins :
  resource_attributes (resolve ∅ "a=1, a =2").2 !! "a" = Some "2".
Proof. reflexivity. Qed.

(** An empty override string leaves the defaults and logs nothing. *)
Example resolve_empty defaults : resolve defaults "" = (Ok tt, State defaults []).
Proof. reflexivity. Qed.

(** The claim C2 fails on ["a=1,bad,b=2"]: the pair [b=2], which follows
    the malformed [bad], is not in the resolved attributes. *)
Lemma pair_after_malformed_is_lost :
  ¬ every_well_formed_pair_kept ∅ "a=1,bad,b=2".
Proof.
  intros H. specialize (H "b=2" "b" "2").
  destruct H as [x Hx].
  - apply list_elem_of_In. simpl. tauto.
  - reflexivity.
  - vm_compute in Hx. discriminate.
Qed.

(** C2, amended: resolution never raises; and in a non-empty override
    string, the first pair that lacks ['='] ends the parse with one
    logged warning: the pairs before it are merged into the defaults, the
    malformed pair and every pair after it are left out. *)
Theorem malformed_pair_ends_parse (defaults : gmap string string) :
  (∀ s, (resolve defaults s).1 = Ok tt)
  ∧ ∀ kvs bad rest,
      let s := join "," (map render_pair kvs ++ bad :: rest) in
      Forall well_formed_pair kvs →
      contains "=" bad = false →
      contains "," bad = false →
      Forall (fun p => contains "," p = false) rest →
      s ≠ "" →
      resolve defaults s = (Ok tt, State (merged defaults kvs) [parse_warning s]).
Proof.
  split; [apply resolve_returns|].
  intros kvs bad rest s Hall Hbad Hcomma Hrest Hs. unfold resolve.
  rewrite parse_overrides_nonempty by done.
  unfold try_except. subst s. rewrite split_join.
  - rewrite for_each_app, for_each_well_formed by done.
    simpl. unfold bind at 1. rewrite parse_pair_malformed by done.
    by rewrite foldl_assign_merged.
  - by destruct (map render_pair kvs).
  - apply Forall_app. split.
    + apply Forall_map. eapply Forall_impl; [exact Hall|].
      intros kv'. apply render_pair_no_comma.
    + by constructor.
Qed.

Lemma malformed_pair_ends_parse_witness :
  let r := resolve ∅ "a=1,bad,b=2" in
  r.1 = Ok tt
  ∧ resource_attributes r.2 !! "a" = Some "1"
  ∧ resource_attributes r.2 !! "b" = None
  ∧ log r.2 = [parse_warning "a=1,bad,b=2"].
Proof.
  intros r.
  pose proof (proj2 (malformed_pair_ends_parse ∅) [("a", "1")] "bad" ["b=2"]) as Hr.
  cbv zeta in Hr.
  change (join "," (map render_pair [("a", "1")] ++ ["bad"; "b=2"]))
    with "a=1,bad,b=2" in Hr.
  assert (Hwf : Forall well_formed_pair [("a", "1")]) by (repeat constructor).
  specialize (Hr Hwf eq_refl eq_refl).
  assert (Hrest : Forall (fun p => contains "," p = false) ["b=2"])
    by (repeat constructor).
  specialize (Hr Hrest).
  assert (Hne : "a=1,bad,b=2" ≠ "") by discriminate.
  specialize (Hr Hne).
  subst r. rewrite Hr. simpl. repeat split.
Defined.

(** *** The resolver on every override string *)

Lemma split1_with_sep sep p :
  contains sep p = true → ∃ k v, split1 sep p = [k; v].
Proof.
  induction p as [|c p IH]; simpl; [done|].
  destruct (Ascii.eqb c sep); simpl; [eauto|].
  intros (k & v & ->)%IH. eauto.
Qed.

Lemma pair_of_with_equals p :
  contains "=" p = true → ∃ k v, split1 "=" p = [k; v] ∧ pair_of p = Some (k, v).
Proof.
  intros (k & v & Hkv)%split1_with_sep. exists k, v.
  unfold pair_of. by rewrite Hkv.
Qed.

Lemma pair_of_without_equals p : contains "=" p = false → pair_of p = None.
Proof. intros Hp. unfold pair_of. by rewrite split1_no_sep. Qed.

Lemma pair_of_Some p k v : pair_of p = Some (k, v) → split1 "=" p = [k; v].
Proof.
  unfold pair_of. destruct (split1 "=" p) as [|a [|b [|c l]]]; try done.
  by intros [= -> ->].
Qed.

Lemma parse_pair_split p k v m l :
  split1 "=" p = [k; v] →
  parse_pair p (State m l) = (Ok tt, State (assign m (k, v)) l).
Proof.
  intros Hkv. unfold parse_pair, mbind, M_bind, bind, lift. by rewrite Hkv.
Qed.

(** The loop over any pieces: it assigns the pairs that come before the
    first piece without ['='], and raises there if there is one. *)
Lemma for_each_pieces ps m l :
  for_each ps parse_pair (State m l)
  = (if forallb (contains "=") ps
     then Ok tt
     else Raise (Exn "ValueError" "not enough values to unpack (expected 2, got 1)"),
     State (foldl assign m (parsed_prefix ps)) l).
Proof.
  revert m. induction ps as [|p ps IH]; intros m; [done|].
  simpl. unfold bind at 1. destruct (contains "=" p) eqn:Hp.
  - destruct (pair_of_with_equals p Hp) as (k & v & Hkv & ->).
    rewrite (parse_pair_split p k v) by done. simpl. apply IH.
  - rewrite parse_pair_malformed, pair_of_without_equals by done. done.
Qed.

Lemma resolve_nonempty defaults s :
  s ≠ "" →
  resolve defaults s
  = (Ok tt,
     State (foldl assign defaults (parsed_prefix (split "," s)))
       (if forallb (contains "=") (split "," s) then [] else [parse_warning s])).
Proof.
  intros Hs. unfold resolve. rewrite parse_overrides_nonempty by done.
  unfold try_except. rewrite for_each_pieces.
  by destruct (forallb _ _).
Qed.

Lemma resolve_attributes defaults s :
  resource_attributes (resolve defaults s).2
  = if String.eqb s "" then defaults
    else foldl assign defaults (parsed_prefix (split "," s)).
Proof.
  destruct (String.eqb_spec s "") as [->|Hs]; [done|].
  by rewrite resolve_nonempty.
Qed.

Lemma resolve_render defaults kvs :
  Forall well_formed_pair kvs →
  resolve defaults (render kvs) = (Ok tt, State (foldl assign defaults kvs) []).
Proof.
  intros Hall. destruct kvs as [|kv kvs]; [done|].
  unfold resolve. rewrite parse_overrides_nonempty by apply render_cons_nonempty.
  unfold try_except, render. rewrite split_join.
  - by rewrite for_each_well_formed.
  - done.
  - apply Forall_map. eapply Forall_impl; [exact Hall|].
    intros kv'. apply render_pair_no_comma.
Qed.

Lemma parsed_prefix_elem ps k v :
  (k, v) ∈ parsed_prefix ps → ∃ p, p ∈ ps ∧ split1 "=" p = [k; v].
Proof.
  induction ps as [|p ps IH]; simpl; [by intros ?%elem_of_nil|].
  destruct (pair_of p) as [[k' v']|] eqn:Hp; [|by intros ?%elem_of_nil].
  intros [[= -> ->]|Hin]%elem_of_cons.
  - exists p. split; [left|by apply pair_of_Some].
  - destruct (IH Hin) as (q & Hq & Hkv). exists q. split; [by right|done].
Qed.

Lemma foldl_assign_lookup_ne m kvs key :
  Forall (fun kv => strip kv.1 ≠ key) kvs →
  foldl assign m kvs !! key = m !! key.
Proof.
  intros Hall. revert m. induction Hall as [|kv kvs Hkv _ IH]; intros m; [done|].
  simpl. rewrite IH. unfold assign. by rewrite lookup_insert_ne.
Qed.

Lemma foldl_assign_trimmed m kvs k v :
  foldl assign m kvs !! k = Some v →
  m !! k = Some v ∨ strip k = k ∧ strip v = v.
Proof.
  revert m. induction kvs as [|kv kvs IH]; intros m; simpl; [by left|].
  intros [Hm|Ht]%IH; [|by right].
  unfold assign in Hm. apply lookup_insert_Some in Hm as [[<- <-]|[_ Hm]].
  - right. by rewrite !strip_idempotent.
  - by left.
Qed.

Lemma resolve_dom defaults s :
  dom defaults ⊆ dom (resource_attributes (resolve defaults s).2).
Proof.
  rewrite resolve_attributes. destruct (String.eqb s ""); [done|].
  rewrite foldl_assign_merged. unfold merged. rewrite dom_union_L. set_solver.
Qed.

(** X1: resolution never removes a key: every key of the defaults is a
    key of the resolved attributes, whatever the override string. *)
Theorem resolve_keeps_keys (defaults : gmap string string) (s : string) :
  dom defaults ⊆ dom (resource_attributes (resolve defaults s).2).
Proof.
  rewrite resolve_attributes. destruct (String.eqb s "") eqn:Hs; [done|].
  rewrite foldl_assign_merged. unfold merged.
  intros key Hkey. apply elem_of_dom. apply elem_of_dom in Hkey as [v Hv].
  destruct (overrides_of (parsed_prefix (split "," s)) !! key) as [v'|] eqn:Ho.
  - exists v'. by apply lookup_union_Some_l.
  - exists v. by rewrite lookup_union_r.
Qed.

(** X2: resolution logs nothing on an empty override string and on one
    whose pieces all hold an ['=']; on any other string it logs exactly
    one warning, which quotes the whole string. *)
Theorem warning_iff_piece_without_equals (defaults : gmap string string) (s : string) :
  log (resolve defaults s).2
  = if String.eqb s "" || forallb (contains "=") (split "," s)
    then []
    else [parse_warning s].
Proof.
  destruct (String.eqb_spec s "") as [->|Hs]; [done|].
  rewrite resolve_nonempty by done. simpl. by destruct (forallb _ _).
Qed.

(** X3: a key that is the trimmed key of no piece of the override string
    keeps the value the defaults give it, or stays absent. *)
Theorem resolve_leaves_other_keys (defaults : gmap string string) (s key : string) :
  (∀ p k v, p ∈ split "," s → split1 "=" p = [k; v] → strip k ≠ key) →
  resource_attributes (resolve defaults s).2 !! key = defaults !! key.
Proof.
  intros Hkey. rewrite resolve_attributes. destruct (String.eqb s ""); [done|].
  apply foldl_assign_lookup_ne, Forall_forall. intros [k v] Hin.
  apply parsed_prefix_elem in Hin as (p & Hp & Hkv). simpl. by eapply Hkey.
Qed.

Lemma resolve_leaves_other_keys_witness :
  resource_attributes
    (resolve (default_attributes "pinger" "prod") "team=rockets,bad,x=1").2
    !! "service.name" = Some "pinger".
Proof.
  rewrite (resolve_leaves_other_keys _ "team=rockets,bad,x=1" "service.name").
  - reflexivity.
  - intros p k v Hp Hkv. apply list_elem_of_In in Hp. simpl in Hp.
    destruct Hp as [<-|[<-|[<-|[]]]]; vm_compute in Hkv; try discriminate;
      injection Hkv as <- <-; vm_compute; discriminate.
Defined.

(** X4: what resolution adds is trimmed: an entry of the resolved
    attributes is an entry of the defaults, or its key and its value
    carry no white space at either end. *)
Theorem resolved_entries_are_trimmed (defaults : gmap string string) (s k v : string) :
  resource_attributes (resolve defaults s).2 !! k = Some v →
  defaults !! k = Some v ∨ strip k = k ∧ strip v = v.
Proof.
  rewrite resolve_attributes. destruct (String.eqb s ""); [by left|].
  apply foldl_assign_trimmed.
Qed.

Lemma resolved_entries_are_trimmed_witness :
  (∅ : gmap string string) !! "team" = Some "rockets"
  ∨ strip "team" = "team" ∧ strip "rockets" = "rockets".
Proof.
  apply (resolved_entries_are_trimmed ∅ "  team =  rockets  ,x" "team" "rockets").
  reflexivity.
Defined.

(** X5: resolving again with the same override string changes nothing:
    the attributes resolved from the resolved attributes are the same. *)
Theorem resolve_idempotent (defaults : gmap string string) (s : string) :
  resource_attributes (resolve (resource_attributes (resolve defaults s).2) s).2
  = resource_attributes (resolve defaults s).2.
Proof.
  rewrite !resolve_attributes. destruct (String.eqb s ""); [done|].
  rewrite !foldl_assign_merged. unfold merged.
  by rewrite (assoc_L (∪)), (idemp_L (∪)).
Qed.

(** X6: in an override string of well-formed pairs, a key has the
    trimmed value of the last pair written for it: the pairs before that
    one and the defaults do not matter. *)
Theorem last_pair_for_key_wins (defaults : gmap string string)
    (before after : list (string * string)) (k v : string) :
  Forall well_formed_pair (before ++ (k, v) :: after) →
  Forall (fun kv => strip kv.1 ≠ strip k) after →
  resource_attributes (resolve defaults (render (before ++ (k, v) :: after))).2
    !! strip k = Some (strip v).
Proof.
  intros Hwf Hafter. rewrite resolve_render by done. simpl.
  rewrite foldl_app. simpl. rewrite foldl_assign_lookup_ne by done.
  unfold assign at 1. simpl. by rewrite lookup_insert_eq.
Qed.

Lemma last_pair_for_key_wins_witness :
  resource_attributes
    (resolve (default_attributes "pinger" "prod")
       "service.name=a, service.name = b ,team=c").2
    !! "service.name" = Some "b".
Proof.
  apply (last_pair_for_key_wins (default_attributes "pinger" "prod")
           [("service.name", "a")] [("team", "c")] " service.name " " b ").
  - repeat constructor.
  - repeat constructor. discriminate.
Defined.

(** *** The start of a service *)

(** X7: whatever the environment of the process holds, the resolution
    of the resource at start returns normally and the resource names the
    service: it has the keys [service.name] and
    [deployment.environment]. *)
Theorem resource_names_the_service (default_service_name : string)
    (environ : gmap string string) :
  let r := Bootstrap.resource default_service_name environ in
  r.1 = Ok tt
  ∧ is_Some (resource_attributes r.2 !! "service.name")
  ∧ is_Some (resource_attributes r.2 !! "deployment.environment").
Proof.
  intros r. split; [apply resolve_returns|].
  pose proof (resolve_dom
                (default_attributes
                   (Bootstrap.service_name default_service_name environ)
                   (Bootstrap.deployment_environment environ))
                (Bootstrap.resource_env_vars environ)) as Hdom.
  split; apply elem_of_dom, Hdom, elem_of_dom; unfold default_attributes;
    by simplify_map_eq.
Qed.

End ResolverFacts.

(** ** The poller *)

Section PollerFacts.

Import Poller.

(** Symbolic execution of the statements of the loop. *)
Ltac run :=
  cbv beta iota zeta delta
    [iteration main_loop start_as_current_span span_body work_unit try_body
     except_handler try_finally try_except session_get on_loop_span logger_log
     print fetch_counter_add success_counter_add error_counter_add time_sleep
     data_get chosen_id fetched_url name_field default
     mbind M_bind bind mret M_ret ret raise modify read lift
     set_pokemon_id set_loop_span set_finished_spans set_fetch_counter
     set_success_counter set_error_counter set_log set_stdout set_requests
     set_slept pokemon_id loop_span finished_spans pokemon_fetch_counter
     pokemon_fetch_success_counter pokemon_fetch_error_counter log stdout
     requests slept fmap option_fmap option_map fst snd].

Ltac run_in H :=
  cbv beta iota zeta delta
    [iteration main_loop start_as_current_span span_body work_unit try_body
     except_handler try_finally try_except session_get on_loop_span logger_log
     print fetch_counter_add success_counter_add error_counter_add time_sleep
     data_get chosen_id fetched_url name_field default
     mbind M_bind bind mret M_ret ret raise modify read lift
     set_pokemon_id set_loop_span set_finished_spans set_fetch_counter
     set_success_counter set_error_counter set_log set_stdout set_requests
     set_slept pokemon_id loop_span finished_spans pokemon_fetch_counter
     pokemon_fetch_success_counter pokemon_fetch_error_counter log stdout
     requests slept fmap option_fmap option_map fst snd] in H.

Lemma add_one labels c : Otel.add 1 labels c = c ++ [Otel.Measurement 1 labels].
Proof. reflexivity. Qed.

Lemma randint_range a b bits : a ≤ b → a ≤ randint a b bits ≤ b.
Proof.
  intros Hab. unfold randint.
  pose proof (Z.mod_pos_bound (Z.of_N bits) (b - a + 1)). lia.
Qed.

(** The work unit returns normally on every input, leaves the span of
    the block current and does not sleep. *)
Lemma work_unit_returns e w :
  ∃ w', work_unit e w = (Ok tt, w')
        ∧ slept w' = slept w
        ∧ finished_spans w' = finished_spans w
        ∧ (is_Some (loop_span w) → is_Some (loop_span w')).
Proof.
  destruct w. run.
  destruct (network e _) as [resp|x]; run.
  - destruct (status_code resp =? 200); run.
    + destruct (json_body resp) as [[]|x]; run;
        (eexists; split; [reflexivity|]; run; repeat split;
         intros [sp ->]; eauto).
    + eexists; split; [reflexivity|]; run; repeat split.
      intros [sp ->]; eauto.
  - eexists; split; [reflexivity|]; run; repeat split.
    intros [sp ->]; eauto.
Qed.

(** The body of the [with] block is the work unit followed by the sleep
    of the [finally] clause. *)
Lemma span_body_work_unit I e w :
  span_body I e w = try_finally (work_unit e) (time_sleep I) w.
Proof. reflexivity. Qed.





(** *** The three outcomes of the work unit *)

(** The claim C3 fails on a 404 response: the span gets the attribute
    ["HTTP 404"], but its status is described by another message. *)
Lemma status_404_description_differs :
  ∃ sp, finished_spans (iteration 30 env_404 initial_world).2 = [sp]
        ∧ Otel.attributes sp !! "error.message" = Some (JStr "HTTP 404")
        ∧ Otel.status sp
          = Otel.MkStatus StatusCode.ERROR (Some "PokeAPI request failed with status 404")
        ∧ ¬ error_with_message "HTTP 404" sp.
Proof.
  eexists. split; [vm_compute; reflexivity|].
  split; [reflexivity|]. split; [reflexivity|].
  intros [_ H]. vm_compute in H. discriminate.
Qed.

(** C3, amended: for every execution of the work unit whose response has
    a status other than 200, the span receives the attribute
    [error.message] equal to ["HTTP <status>"], the span is marked ERROR
    with the description ["PokeAPI request failed with status <status>"],
    the error counter receives one measurement labelled with the attempted
    id and the status code, the success counter is left alone, no
    exception is recorded and the work unit returns normally. *)
Theorem non_200_is_application_failure (e : env) (w : world) (sp0 : Otel.span)
    (resp : response) :
  loop_span w = Some sp0 →
  network e (fetched_url e) = Ok resp →
  status_code resp ≠ 200 →
  ∃ w' sp',
    work_unit e w = (Ok tt, w')
    ∧ loop_span w' = Some sp'
    ∧ Otel.attributes sp' !! "error.message"
      = Some (JStr ("HTTP " +:+ str_int (status_code resp)))
    ∧ Otel.status sp'
      = Otel.MkStatus StatusCode.ERROR
          (Some ("PokeAPI request failed with status " +:+ str_int (status_code resp)))
    ∧ Otel.recorded_exceptions sp' = Otel.recorded_exceptions sp0
    ∧ pokemon_fetch_error_counter w'
      = pokemon_fetch_error_counter w
        ++ [Otel.Measurement 1
              (<["http.status_code" := JStr (str_int (status_code resp))]>
                 {[ "pokemon.id" := JStr (str_int (chosen_id e)) ]})]
    ∧ pokemon_fetch_success_counter w' = pokemon_fetch_success_counter w.
Proof.
  intros Hsp Hnet Hst. destruct w. run_in Hsp. run_in Hnet. subst.
  run. rewrite Hnet. run.
  destruct (Z.eqb_spec (status_code resp) 200) as [|_]; [done|].
  do 2 eexists. split; [reflexivity|]. run. split; [reflexivity|].
  cbn [Otel.set_status Otel.set_attribute Otel.attributes Otel.status
       Otel.recorded_exceptions Otel.span_name Otel.ended].
  rewrite lookup_insert_eq, add_one. done.
Qed.

Lemma non_200_is_application_failure_witness :
  ∃ w' sp',
    work_unit env_404 in_span = (Ok tt, w')
    ∧ loop_span w' = Some sp'
    ∧ Otel.attributes sp' !! "error.message" = Some (JStr "HTTP 404")
    ∧ Otel.status sp'
      = Otel.MkStatus StatusCode.ERROR (Some "PokeAPI request failed with status 404")
    ∧ pokemon_fetch_error_counter w'
      = [Otel.Measurement 1
           (<["http.status_code" := JStr "404"]> {[ "pokemon.id" := JStr "7" ]})].
Proof.
  destruct (non_200_is_application_failure env_404 in_span
              (Otel.new_span "fetch_pokemon_loop")
              (Response 404 (Raise (Exn "JSONDecodeError" "Expecting value"))))
    as (w' & sp' & Hw & Hsp & Hattr & Hstatus & _ & Herr & _).
  - reflexivity.
  - reflexivity.
  - discriminate.
  - exists w', sp'. repeat split; assumption.
Defined.






(** *** The counters *)

Lemma value_app c1 c2 : Otel.value (c1 ++ c2) = Otel.value c1 + Otel.value c2.
Proof.
  unfold Otel.value. induction c1 as [|m c1 IH]; simpl; [done|]. rewrite IH. lia.
Qed.

(** A counter incremented once is worth one more. *)
Lemma incremented_once_value before after :
  incremented_once before after → Otel.value after = Otel.value before + 1.
Proof. intros [labels ->]. rewrite value_app. simpl. lia. Qed.

(** Whatever the outcome of an iteration, the attempt counter receives
    one measurement and so does exactly one of the other two. *)
Lemma iteration_counts_once I e w :
  let w' := (iteration I e w).2 in
  incremented_once (pokemon_fetch_counter w) (pokemon_fetch_counter w')
  ∧ (incremented_once (pokemon_fetch_success_counter w)
                      (pokemon_fetch_success_counter w')
     ∧ pokemon_fetch_error_counter w' = pokemon_fetch_error_counter w
     ∨ pokemon_fetch_success_counter w' = pokemon_fetch_success_counter w
       ∧ incremented_once (pokemon_fetch_error_counter w)
                          (pokemon_fetch_error_counter w')).
Proof.
  destruct w. unfold incremented_once. run.
  destruct (network e _) as [resp|x]; run;
    [destruct (status_code resp =? 200); run;
     [destruct (json_body resp) as [[]|x]; run|]|];
    destruct (I <? 0); run;
    (split; [eexists; reflexivity|]);
    first [ left; split; [eexists; reflexivity | reflexivity]
          | right; split; [reflexivity | eexists; reflexivity] ].
Qed.

(** *** The pacing of the loop *)



(** *** The life of the span *)

Lemma span_body_keeps_span I e w :
  is_Some (loop_span w) →
  is_Some (loop_span (span_body I e w).2)
  ∧ finished_spans (span_body I e w).2 = finished_spans w.
Proof.
  intros Hsp. rewrite span_body_work_unit. unfold try_finally.
  destruct (work_unit_returns e w) as (w1 & -> & _ & Hfin & Hkeep).
  unfold time_sleep. destruct (I <? 0); simpl; rewrite <- Hfin; auto.
Qed.

Lemma iteration_ends_span I e w :
  (∃ sp, finished_spans (iteration I e w).2 = finished_spans w ++ [sp]
         ∧ Otel.ended sp = true)
  ∧ loop_span (iteration I e w).2 = loop_span w.
Proof.
  unfold iteration, start_as_current_span.
  destruct (span_body_keeps_span I e
              (set_loop_span (Some (Otel.new_span "fetch_pokemon_loop")) w))
    as [[sp Hsp] Hfin]; [by eexists|].
  destruct (span_body I e _) as [r w1]. simpl in Hsp, Hfin. rewrite Hsp.
  split.
  - eexists. cbn [snd finished_spans set_loop_span set_finished_spans].
    rewrite Hfin. split; reflexivity.
  - reflexivity.
Qed.

(** C9: the span an iteration opens is ended when the iteration is left,
    whether its body returned or raised, and the span that was current
    before is current again; so along the loop, however it goes, every
    span opened is ended and none stays current. *)
Theorem span_ended_on_every_exit (I : Z) (w : world) :
  (∀ e, ∃ sp, finished_spans (iteration I e w).2 = finished_spans w ++ [sp]
              ∧ Otel.ended sp = true
              ∧ loop_span (iteration I e w).2 = loop_span w)
  ∧ ∀ envs, ∃ new,
      finished_spans (main_loop I envs w).2 = finished_spans w ++ new
      ∧ Forall (fun sp => Otel.ended sp = true) new
      ∧ loop_span (main_loop I envs w).2 = loop_span w.
Proof.
  split.
  - intros e. destruct (iteration_ends_span I e w) as [(sp & Hfin & Hend) Hcur].
    by exists sp.
  - intros envs. revert w. induction envs as [|e envs IH]; intros w.
    + exists []. simpl. by rewrite app_nil_r.
    + destruct (iteration_ends_span I e w) as [(sp & Hfin & Hend) Hcur].
      unfold main_loop in *. simpl. unfold bind.
      destruct (iteration I e w) as [[[]|x] w1]; simpl in Hfin, Hcur.
      * destruct (IH w1) as (new & Hfin' & Hall & Hcur').
        exists (sp :: new). rewrite Hfin', Hfin, Hcur', Hcur, <- app_assoc.
        split; [done|]. split; [by constructor|done].
      * exists [sp]. simpl. split; [done|]. split; [by constructor|done].
Qed.

(** *** The identifier *)

(** The claim C10 fails on the span attribute: its value is the integer
    itself, not the string the URL and the labels use. *)
Lemma attempted_id_attribute_is_integer :
  ∃ sp, finished_spans (iteration 30 env_404 initial_world).2 = [sp]
        ∧ chosen_id env_404 = 7
        ∧ Otel.attributes sp !! "pokemon.id.attempted" = Some (JInt 7)
        ∧ Otel.attributes sp !! "pokemon.id.attempted" ≠ Some (JStr (str_int 7)).
Proof.
  eexists. split; [vm_compute; reflexivity|].
  split; [reflexivity|]. split; [reflexivity|].
  intros H. vm_compute in H. discriminate.
Qed.

(** C10, amended: in every execution of the work unit the identifier is
    an integer of the range 1 to 300; that integer is the value of the
    span attribute [pokemon.id.attempted], and its decimal writing is what
    the fetched URL ends with and what every measurement of the execution
    carries as its label [pokemon.id].  The [try] body is entered with the
    identifier at 0, and the handler run with the identifier at 0 labels
    its measurement with ["0"]. *)
Theorem chosen_id_used_throughout (e : env) (w : world) (sp0 : Otel.span) :
  loop_span w = Some sp0 →
  1 ≤ chosen_id e ≤ 300
  ∧ (∃ w' sp' new_attempts new_successes new_errors,
        work_unit e w = (Ok tt, w')
        ∧ pokemon_id w' = chosen_id e
        ∧ loop_span w' = Some sp'
        ∧ Otel.attributes sp' !! "pokemon.id.attempted" = Some (JInt (chosen_id e))
        ∧ requests w' = requests w ++ [fetched_url e]
        ∧ pokemon_fetch_counter w' = pokemon_fetch_counter w ++ new_attempts
        ∧ pokemon_fetch_success_counter w'
          = pokemon_fetch_success_counter w ++ new_successes
        ∧ pokemon_fetch_error_counter w'
          = pokemon_fetch_error_counter w ++ new_errors
        ∧ Forall (labelled_with_id (chosen_id e))
            (new_attempts ++ new_successes ++ new_errors))
  ∧ work_unit e w = try_except (try_body e) except_handler (set_pokemon_id 0 w)
  ∧ pokemon_id (set_pokemon_id 0 w) = 0
  ∧ ∀ x w0,
      pokemon_id w0 = 0 →
      pokemon_fetch_error_counter (except_handler x w0).2
      = pokemon_fetch_error_counter w0
        ++ [Otel.Measurement 1
              (<["exception.type" := JStr (exc_type x)]> {[ "pokemon.id" := JStr "0" ]})].
Proof.
  intros Hsp. split; [by apply randint_range|].
  split; [|split; [reflexivity|split; [reflexivity|]]].
  - destruct w. run_in Hsp. subst. run.
    destruct (network e _) as [resp|x]; run;
      [destruct (status_code resp =? 200); run;
       [destruct (json_body resp) as [[]|x]; run|]|];
      (do 5 eexists; split; [reflexivity|]; run;
       split; [reflexivity|]; split; [reflexivity|];
       cbn [Otel.set_status Otel.set_attribute Otel.record_exception
            Otel.attributes];
       split; [by simplify_map_eq|]; split; [reflexivity|];
       split; [reflexivity|];
       split; [first [reflexivity | symmetry; apply app_nil_r]|];
       split; [first [reflexivity | symmetry; apply app_nil_r]|];
       repeat constructor; unfold labelled_with_id; cbn [Otel.labels];
       by simplify_map_eq).
  - intros x w0 H0. destruct w0. run_in H0. subst. reflexivity.
Qed.

Lemma chosen_id_used_throughout_witness :
  1 ≤ chosen_id env_200 ≤ 300
  ∧ ∃ w' sp',
      work_unit env_200 in_span = (Ok tt, w')
      ∧ pokemon_id w' = 25
      ∧ loop_span w' = Some sp'
      ∧ Otel.attributes sp' !! "pokemon.id.attempted" = Some (JInt 25)
      ∧ requests w' = ["https://pokeapi.co/api/v2/pokemon/25"].
Proof.
  destruct (chosen_id_used_throughout env_200 in_span
              (Otel.new_span "fetch_pokemon_loop") eq_refl)
    as (Hrange & (w' & sp' & na & ns & ne & Hw & Hid & Hsp & Hattr & Hreq & _) & _).
  split; [exact Hrange|].
  exists w', sp'. repeat split; assumption.
Defined.

(** *** Traces, metrics and logs of the loop together *)

(** What the work unit leaves of the span it runs in, and how the status
    it sets goes with the counter it feeds. *)
Lemma work_unit_span e w sp0 :
  loop_span w = Some sp0 →
  ∃ w' sp',
    work_unit e w = (Ok tt, w')
    ∧ loop_span w' = Some sp'
    ∧ Otel.span_name sp' = Otel.span_name sp0
    ∧ Otel.ended sp' = Otel.ended sp0
    ∧ (Otel.code (Otel.status sp') = StatusCode.OK
       ∧ Otel.recorded_exceptions sp' = Otel.recorded_exceptions sp0
       ∧ incremented_once (pokemon_fetch_success_counter w)
                          (pokemon_fetch_success_counter w')
       ∧ pokemon_fetch_error_counter w' = pokemon_fetch_error_counter w
       ∨ Otel.code (Otel.status sp') = StatusCode.ERROR
         ∧ pokemon_fetch_success_counter w' = pokemon_fetch_success_counter w
         ∧ incremented_once (pokemon_fetch_error_counter w)
                            (pokemon_fetch_error_counter w')).
Proof.
  intros Hsp. destruct w. run_in Hsp. subst. unfold incremented_once. run.
  destruct (network e _) as [resp|x]; run;
    [destruct (status_code resp =? 200); run;
     [destruct (json_body resp) as [[]|x]; run|]|];
    (do 2 eexists; split; [reflexivity|]; run;
     split; [reflexivity|]; split; [reflexivity|]; split; [reflexivity|];
     first [ left; split; [reflexivity|]; split; [reflexivity|];
             split; [eexists; reflexivity | reflexivity]
           | right; split; [reflexivity|]; split; [reflexivity|];
             eexists; reflexivity ]).
Qed.

(** X8: the work unit always leaves the span with a status, OK or
    ERROR, and the status agrees with the counters: OK goes with one
    measurement on the success counter and no exception recorded, ERROR
    with one measurement on the error counter. *)
Theorem span_status_agrees_with_counters (e : env) (w : world) (sp0 : Otel.span) :
  loop_span w = Some sp0 →
  ∃ w' sp',
    work_unit e w = (Ok tt, w')
    ∧ loop_span w' = Some sp'
    ∧ (Otel.code (Otel.status sp') = StatusCode.OK
       ∧ Otel.recorded_exceptions sp' = Otel.recorded_exceptions sp0
       ∧ incremented_once (pokemon_fetch_success_counter w)
                          (pokemon_fetch_success_counter w')
       ∧ pokemon_fetch_error_counter w' = pokemon_fetch_error_counter w
       ∨ Otel.code (Otel.status sp') = StatusCode.ERROR
         ∧ pokemon_fetch_success_counter w' = pokemon_fetch_success_counter w
         ∧ incremented_once (pokemon_fetch_error_counter w)
                            (pokemon_fetch_error_counter w')).
Proof.
  intros Hsp.
  destruct (work_unit_span e w sp0 Hsp) as (w' & sp' & Hw & Hsp' & _ & _ & H).
  by exists w', sp'.
Qed.

Lemma span_status_agrees_with_counters_witness :
  ∃ w' sp',
    work_unit env_refused in_span = (Ok tt, w')
    ∧ loop_span w' = Some sp'
    ∧ Otel.code (Otel.status sp') = StatusCode.ERROR
    ∧ Otel.value (pokemon_fetch_error_counter w') = 1
    ∧ Otel.value (pokemon_fetch_success_counter w') = 0.
Proof.
  destruct (span_status_agrees_with_counters env_refused in_span
              (Otel.new_span "fetch_pokemon_loop") eq_refl)
    as (w' & sp' & Hw & Hsp & H).
  exists w', sp'. split; [exact Hw|]. split; [exact Hsp|].
  injection Hw as <-. injection Hsp as <-. repeat split.
Defined.

(** A response of status 200 whose body gives no name: decoding it
    raises, or what it decodes to has no [get]. *)
Lemma work_unit_on_body_exception e w sp0 resp x :
  loop_span w = Some sp0 →
  network e (fetched_url e) = Ok resp →
  status_code resp = 200 →
  match json_body resp with
  | Ok data => data_get data "name" (JStr "unknown")
  | Raise y => Raise y
  end = Raise x →
  ∃ w' sp',
    work_unit e w = (Ok tt, w')
    ∧ loop_span w' = Some sp'
    ∧ Otel.attributes sp' !! "http.status_code" = Some (JInt 200)
    ∧ Otel.attributes sp' !! "pokemon.name" = Otel.attributes sp0 !! "pokemon.name"
    ∧ Otel.recorded_exceptions sp' = Otel.recorded_exceptions sp0 ++ [x]
    ∧ Otel.status sp'
      = Otel.MkStatus StatusCode.ERROR (Some ("Exception: " +:+ exc_str x))
    ∧ pokemon_fetch_error_counter w'
      = pokemon_fetch_error_counter w
        ++ [Otel.Measurement 1
              (<["exception.type" := JStr (exc_type x)]>
                 {[ "pokemon.id" := JStr (str_int (chosen_id e)) ]})]
    ∧ pokemon_fetch_success_counter w' = pokemon_fetch_success_counter w.
Proof.
  intros Hsp Hnet Hst Hx. destruct w. run_in Hsp. run_in Hnet. subst.
  run. rewrite Hnet. run. rewrite Hst. run.
  destruct (json_body resp) as [data|y]; run.
  - unfold data_get in Hx. destruct data; try discriminate;
      injection Hx as <-; run;
      (do 2 eexists; split; [reflexivity|]; run; split; [reflexivity|];
       cbn [Otel.set_status Otel.set_attribute Otel.record_exception
            Otel.attributes Otel.status Otel.recorded_exceptions];
       split; [by simplify_map_eq|]; split; [by simplify_map_eq|];
       by repeat split).
  - injection Hx as ->.
    do 2 eexists. split; [reflexivity|]. run. split; [reflexivity|].
    cbn [Otel.set_status Otel.set_attribute Otel.record_exception
         Otel.attributes Otel.status Otel.recorded_exceptions].
    split; [by simplify_map_eq|]. split; [by simplify_map_eq|].
    by repeat split.
Qed.

(** X9: a response of status 200 whose body fails to decode is counted
    as an error, not as a success: the exception of [response.json()]
    is recorded on the span and labels the measurement of the error
    counter with its type; the span keeps the attribute
    [http.status_code] at 200, gets no [pokemon.name], and the work unit
    returns normally. *)
Theorem undecodable_200_is_an_error (e : env) (w : world) (sp0 : Otel.span)
    (resp : response) (x : exn) :
  loop_span w = Some sp0 →
  network e (fetched_url e) = Ok resp →
  status_code resp = 200 →
  json_body resp = Raise x →
  ∃ w' sp',
    work_unit e w = (Ok tt, w')
    ∧ loop_span w' = Some sp'
    ∧ Otel.attributes sp' !! "http.status_code" = Some (JInt 200)
    ∧ Otel.attributes sp' !! "pokemon.name" = Otel.attributes sp0 !! "pokemon.name"
    ∧ Otel.recorded_exceptions sp' = Otel.recorded_exceptions sp0 ++ [x]
    ∧ Otel.status sp'
      = Otel.MkStatus StatusCode.ERROR (Some ("Exception: " +:+ exc_str x))
    ∧ pokemon_fetch_error_counter w'
      = pokemon_fetch_error_counter w
        ++ [Otel.Measurement 1
              (<["exception.type" := JStr (exc_type x)]>
                 {[ "pokemon.id" := JStr (str_int (chosen_id e)) ]})]
    ∧ pokemon_fetch_success_counter w' = pokemon_fetch_success_counter w.
Proof.
  intros Hsp Hnet Hst Hjson.
  apply (work_unit_on_body_exception e w sp0 resp x); try done.
  by rewrite Hjson.
Qed.

Lemma undecodable_200_is_an_error_witness :
  ∃ w' sp',
    work_unit env_200_html in_span = (Ok tt, w')
    ∧ loop_span w' = Some sp'
    ∧ Otel.attributes sp' !! "http.status_code" = Some (JInt 200)
    ∧ Otel.attributes sp' !! "pokemon.name" = None
    ∧ Otel.code (Otel.status sp') = StatusCode.ERROR
    ∧ pokemon_fetch_error_counter w'
      = [Otel.Measurement 1
           (<["exception.type" := JStr "JSONDecodeError"]>
              {[ "pokemon.id" := JStr "7" ]})].
Proof.
  destruct (undecodable_200_is_an_error env_200_html in_span
              (Otel.new_span "fetch_pokemon_loop")
              (Response 200 (Raise (Exn "JSONDecodeError" "Expecting value")))
              (Exn "JSONDecodeError" "Expecting value"))
    as (w' & sp' & Hw & Hsp & Hcode & Hname & _ & Hstatus & Herr & _);
    try reflexivity.
  exists w', sp'. repeat split; try assumption. by rewrite Hstatus.
Defined.

(** X10: a response of status 200 whose body decodes to anything but an
    object (a list, a string, a number, [null]) is counted as an error:
    [data.get] raises an [AttributeError] that names the type of the
    value, which is recorded on the span and labels the measurement of
    the error counter; the success counter is left alone. *)
Theorem non_object_200_is_an_error (e : env) (w : world) (sp0 : Otel.span)
    (resp : response) (data : json) :
  loop_span w = Some sp0 →
  network e (fetched_url e) = Ok resp →
  status_code resp = 200 →
  json_body resp = Ok data →
  (∀ fields, data ≠ JObj fields) →
  ∃ w' sp',
    work_unit e w = (Ok tt, w')
    ∧ loop_span w' = Some sp'
    ∧ Otel.recorded_exceptions sp'
      = Otel.recorded_exceptions sp0
        ++ [Exn "AttributeError"
              ("'" +:+ type_name data +:+ "' object has no attribute 'get'")]
    ∧ Otel.code (Otel.status sp') = StatusCode.ERROR
    ∧ pokemon_fetch_error_counter w'
      = pokemon_fetch_error_counter w
        ++ [Otel.Measurement 1
              (<["exception.type" := JStr "AttributeError"]>
                 {[ "pokemon.id" := JStr (str_int (chosen_id e)) ]})]
    ∧ pokemon_fetch_success_counter w' = pokemon_fetch_success_counter w.
Proof.
  intros Hsp Hnet Hst Hjson Hdata.
  destruct (work_unit_on_body_exception e w sp0 resp
              (Exn "AttributeError"
                 ("'" +:+ type_name data +:+ "' object has no attribute 'get'")))
    as (w' & sp' & Hw & Hsp' & _ & _ & Hrec & Hstatus & Herr & Hsucc); try done.
  { rewrite Hjson. destruct data; try done. by destruct (Hdata fields). }
  exists w', sp'. repeat split; try done. by rewrite Hstatus.
Qed.

Lemma non_object_200_is_an_error_witness :
  ∃ w' sp',
    work_unit env_200_list in_span = (Ok tt, w')
    ∧ loop_span w' = Some sp'
    ∧ Otel.recorded_exceptions sp'
      = [Exn "AttributeError" "'list' object has no attribute 'get'"]
    ∧ Otel.code (Otel.status sp') = StatusCode.ERROR
    ∧ Otel.value (pokemon_fetch_success_counter w') = 0.
Proof.
  destruct (non_object_200_is_an_error env_200_list in_span
              (Otel.new_span "fetch_pokemon_loop")
              (Response 200 (Ok (JArr [JStr "pikachu"])))
              (JArr [JStr "pikachu"]))
    as (w' & sp' & Hw & Hsp & Hrec & Hcode & _ & Hsucc); try reflexivity.
  - discriminate.
  - exists w', sp'. repeat split; try assumption. by rewrite Hsucc.
Defined.


(** *** The loop as a whole *)

Lemma main_loop_cons I e envs w :
  main_loop I (e :: envs) w
  = match iteration I e w with
    | (Ok _, w1) => main_loop I envs w1
    | (Raise x, w1) => (Raise x, w1)
    end.
Proof. reflexivity. Qed.

Lemma iteration_balance I e w :
  poller_balance w (iteration I e w).2
  ∧ Otel.value (pokemon_fetch_counter (iteration I e w).2)
    = Otel.value (pokemon_fetch_counter w) + 1.
Proof.
  destruct (iteration_counts_once I e w) as [Ha [[Hs He]|[Hs He]]];
    apply incremented_once_value in Ha; unfold poller_balance;
    [apply incremented_once_value in Hs; rewrite He
    |apply incremented_once_value in He; rewrite Hs]; lia.
Qed.

(** X12: along the loop, whatever the interval, the draws and the
    answers of the network, and whether or not the loop is ended by an
    exception, the counters balance: the attempts counted are the
    successes plus the errors counted; and when the loop has run through
    [n] iterations, it has counted [n] attempts. *)
Theorem loop_counters_balance (I : Z) (envs : list env) (w : world) :
  poller_balance w (main_loop I envs w).2
  ∧ ((main_loop I envs w).1 = Ok tt →
     Otel.value (pokemon_fetch_counter (main_loop I envs w).2)
     = Otel.value (pokemon_fetch_counter w) + Z.of_nat (length envs)).
Proof.
  revert w. induction envs as [|e envs IH]; intros w.
  - split; [unfold poller_balance; simpl; lia|]. intros _. simpl. lia.
  - rewrite main_loop_cons.
    destruct (iteration_balance I e w) as [Hbal Hatt].
    destruct (iteration I e w) as [[[]|x] w1]; simpl in Hbal, Hatt.
    + destruct (IH w1) as [Hbal' Hatt']. split.
      * unfold poller_balance in *. lia.
      * intros Hok. rewrite (Hatt' Hok), Hatt.
        change (length (e :: envs)) with (S (length envs)). lia.
    + split; [done|]. discriminate.
Qed.

Lemma loop_counters_balance_witness :
  let w' := (main_loop 30 [env_200; env_refused; env_404] initial_world).2 in
  Otel.value (pokemon_fetch_counter w') = 3
  ∧ Otel.value (pokemon_fetch_success_counter w')
    + Otel.value (pokemon_fetch_error_counter w') = 3.
Proof.
  intros w'. subst w'.
  destruct (loop_counters_balance 30 [env_200; env_refused; env_404] initial_world)
    as [Hbal Hatt].
  specialize (Hatt eq_refl). unfold poller_balance in Hbal.
  change (Z.of_nat (length [env_200; env_refused; env_404])) with 3 in Hatt.
  change (Otel.value (pokemon_fetch_counter initial_world)) with 0 in *.
  change (Otel.value (pokemon_fetch_success_counter initial_world)) with 0 in *.
  change (Otel.value (pokemon_fetch_error_counter initial_world)) with 0 in *.
  lia.
Defined.

Lemma work_unit_requests e w :
  requests (work_unit e w).2 = requests w ++ [fetched_url e]
  ∧ incremented_once (pokemon_fetch_counter w) (pokemon_fetch_counter (work_unit e w).2).
Proof.
  destruct w. unfold incremented_once. run.
  destruct (network e _) as [resp|x]; run;
    [destruct (status_code resp =? 200); run;
     [destruct (json_body resp) as [[]|x]; run|]|];
    (split; [reflexivity | eexists; reflexivity]).
Qed.

(** X13: a negative interval ends the loop in its first iteration: the
    work unit runs once, with its one request and its one attempt
    counted, then [time.sleep] raises a [ValueError] that nothing
    catches; no sleep takes place and no later draw is used. *)
Theorem negative_interval_ends_loop (I : Z) (e : env) (envs : list env) (w : world) :
  I < 0 →
  ∃ w',
    main_loop I (e :: envs) w = (Raise negative_sleep, w')
    ∧ requests w' = requests w ++ [fetched_url e]
    ∧ Otel.value (pokemon_fetch_counter w')
      = Otel.value (pokemon_fetch_counter w) + 1
    ∧ slept w' = slept w.
Proof.
  intros HI. rewrite main_loop_cons.
  unfold iteration, start_as_current_span.
  set (w0 := set_loop_span (Some (Otel.new_span "fetch_pokemon_loop")) w).
  rewrite span_body_work_unit. unfold try_finally.
  destruct (work_unit_returns e w0) as (w1 & Hw & Hslept & _ & Hspan).
  destruct (work_unit_requests e w0) as [Hreq Hatt].
  apply incremented_once_value in Hatt.
  rewrite Hw in *. cbn [snd] in Hreq, Hatt.
  unfold time_sleep. destruct (Z.ltb_spec I 0) as [_|]; [|lia].
  unfold raise. cbv iota beta.
  destruct Hspan as [sp Hsp]; [by eexists|]. rewrite Hsp.
  eexists. split; [reflexivity|].
  cbn [requests slept pokemon_fetch_counter set_loop_span set_finished_spans].
  rewrite Hreq, Hatt, Hslept. by destruct w.
Qed.

Lemma negative_interval_ends_loop_witness :
  ∃ w',
    main_loop (-5) [env_200; env_404] initial_world = (Raise negative_sleep, w')
    ∧ requests w' = ["https://pokeapi.co/api/v2/pokemon/25"]
    ∧ slept w' = [].
Proof.
  destruct (negative_interval_ends_loop (-5) env_200 [env_404] initial_world)
    as (w' & Hw & Hreq & _ & Hslept); [lia|].
  exists w'. repeat split; assumption.
Defined.




End PollerFacts.

(** ** The catcher *)

Section CatcherFacts.

Import Catcher.

Ltac run_catch :=
  cbv beta iota zeta delta
    [catch on_current_span attempt_counter_add success_counter_add
     failure_counter_add logger_info jsonify
     mbind M_bind bind mret M_ret ret modify
     current_span pokemon_catch_attempt_counter pokemon_catch_success_counter
     pokemon_catch_failure_counter log fst snd].

(** Whatever the draw, a call of the handler gives the attempt counter
    one measurement and exactly one of the other two counters one. *)
Lemma catch_counts_once pkmn_id draw w :
  let w' := (catch pkmn_id draw w).2 in
  incremented_once (pokemon_catch_attempt_counter w)
                   (pokemon_catch_attempt_counter w')
  ∧ (incremented_once (pokemon_catch_success_counter w)
                      (pokemon_catch_success_counter w')
     ∧ pokemon_catch_failure_counter w' = pokemon_catch_failure_counter w
     ∨ pokemon_catch_success_counter w' = pokemon_catch_success_counter w
       ∧ incremented_once (pokemon_catch_failure_counter w)
                          (pokemon_catch_failure_counter w')).
Proof.
  destruct w. unfold incremented_once. run_catch.
  destruct (below_half draw); run_catch;
    (split; [eexists; reflexivity|]);
    [ left; split; [eexists; reflexivity | reflexivity]
    | right; split; [reflexivity | eexists; reflexivity] ].
Qed.

(** C5: for every integer [pkmn_id], whatever the draw and the state, the
    handler returns: a response of status 200 whose body is the object
    with [pokemon_id] equal to the path parameter and a boolean [caught],
    true exactly when the draw is below one half. *)
Theorem catch_returns_id (pkmn_id : Z) (draw : Q) (w : world) :
  ∃ b w',
    catch pkmn_id draw w
    = (Ok (HttpResponse 200 (JObj [("pokemon_id", JInt pkmn_id); ("caught", JBool b)])),
       w')
    ∧ b = below_half draw.
Proof.
  destruct w. run_catch.
  destruct (below_half draw); run_catch; by do 2 eexists.
Qed.

(** *** The handler on its span and its log *)

(** X15: the handler logs what it returns: one record at level INFO
    whose payload is the very body of the response; nothing else is
    logged. *)
Theorem catch_logs_what_it_returns (pkmn_id : Z) (draw : Q) (w : world) :
  ∃ resp w',
    catch pkmn_id draw w = (Ok resp, w')
    ∧ log w' = log w ++ [LogRecord INFO (JsonDumps (body resp))].
Proof.
  destruct w. run_catch.
  destruct (below_half draw); run_catch;
    (do 2 eexists; split; reflexivity).
Qed.

(** X16: the handler only annotates the span of the request: it sets
    the attributes [pokemon.id.caught] and [pokemon.caught_result],
    leaves every other attribute as it was, and never touches the status,
    the recorded exceptions, the name or the end of the span. *)
Theorem catch_only_annotates_span (pkmn_id : Z) (draw : Q) (w : world) :
  let sp := current_span w in
  let sp' := current_span (catch pkmn_id draw w).2 in
  Otel.attributes sp' !! "pokemon.id.caught" = Some (JInt pkmn_id)
  ∧ Otel.attributes sp' !! "pokemon.caught_result" = Some (JBool (below_half draw))
  ∧ (∀ key, key ≠ "pokemon.id.caught" → key ≠ "pokemon.caught_result" →
            Otel.attributes sp' !! key = Otel.attributes sp !! key)
  ∧ Otel.status sp' = Otel.status sp
  ∧ Otel.recorded_exceptions sp' = Otel.recorded_exceptions sp
  ∧ Otel.ended sp' = Otel.ended sp
  ∧ Otel.span_name sp' = Otel.span_name sp.
Proof.
  destruct w. run_catch.
  destruct (below_half draw); run_catch;
    cbn [Otel.set_attribute Otel.attributes Otel.status Otel.recorded_exceptions
         Otel.ended Otel.span_name];
    (split; [by simplify_map_eq|]; split; [by simplify_map_eq|];
     split; [intros key H1 H2; by simplify_map_eq|]; by repeat split).
Qed.

Lemma below_half_lt draw : below_half draw = true ↔ (draw < 1 # 2)%Q.
Proof.
  unfold below_half. rewrite Qlt_alt.
  destruct (draw ?= 1 # 2)%Q; split; congruence.
Qed.

(** X17: the draw decides the outcome at one half, which itself is a
    failure: a draw below one half is answered [caught: true] and counted
    on the success counter alone; a draw of one half or more is answered
    [caught: false] and counted on the failure counter alone. *)
Theorem catch_outcome_follows_draw (pkmn_id : Z) (draw : Q) (w : world) :
  let r := catch pkmn_id draw w in
  ((draw < 1 # 2)%Q →
   (∃ resp, r.1 = Ok resp ∧ assoc "caught" (match body resp with
                                            | JObj fields => fields
                                            | _ => []
                                            end) = Some (JBool true))
   ∧ incremented_once (pokemon_catch_success_counter w)
                      (pokemon_catch_success_counter r.2)
   ∧ pokemon_catch_failure_counter r.2 = pokemon_catch_failure_counter w)
  ∧ ((1 # 2 <= draw)%Q →
     (∃ resp, r.1 = Ok resp ∧ assoc "caught" (match body resp with
                                              | JObj fields => fields
                                              | _ => []
                                              end) = Some (JBool false))
     ∧ pokemon_catch_success_counter r.2 = pokemon_catch_success_counter w
     ∧ incremented_once (pokemon_catch_failure_counter w)
                        (pokemon_catch_failure_counter r.2)).
Proof.
  intros r. subst r. unfold incremented_once. split; intros Hdraw.
  - apply below_half_lt in Hdraw. destruct w. run_catch. rewrite Hdraw. run_catch.
    split; [by eexists|]. split; [eexists|]; reflexivity.
  - assert (Hb : below_half draw = false).
    { destruct (below_half draw) eqn:Hb; [|done].
      apply below_half_lt in Hb. by apply Qle_not_lt in Hdraw. }
    destruct w. run_catch. rewrite Hb. run_catch.
    split; [by eexists|]. split; [|eexists]; reflexivity.
Qed.

Lemma catch_outcome_follows_draw_witness :
  let w := World (Otel.new_span "GET /catch/7") [] [] [] [] in
  Otel.value (pokemon_catch_success_counter (catch 7 (1 # 3) w).2) = 1
  ∧ Otel.value (pokemon_catch_failure_counter (catch 7 (1 # 2) w).2) = 1
  ∧ Otel.value (pokemon_catch_success_counter (catch 7 (1 # 2) w).2) = 0.
Proof.
  intros w.
  destruct (catch_outcome_follows_draw 7 (1 # 3) w) as [Hlow _].
  destruct (catch_outcome_follows_draw 7 (1 # 2) w) as [_ Hhigh].
  destruct Hlow as (_ & [l1 Hs1] & _); [reflexivity|].
  destruct Hhigh as (_ & Hs2 & [l2 Hf2]); [discriminate|].
  rewrite Hs1, Hs2, Hf2. repeat split.
Defined.

End CatcherFacts.

(** ** The heartbeat *)

Section HeartbeatFacts.

Import Heartbeat.




(** X19: a negative interval ends the heartbeat in its first turn: one
    record is logged, then [time.sleep] raises a [ValueError] that nothing
    in [heartbeat] catches; no sleep takes place and no later reading of
    the clock is logged. *)
Theorem negative_interval_ends_heartbeat (I : Z) (now : string)
    (clock : list string) (s : server) :
  I < 0 →
  ∃ s',
    heartbeat I (now :: clock) s = (Raise negative_sleep, s')
    ∧ Catcher.log (handler s') = Catcher.log (handler s) ++ [heartbeat_record now]
    ∧ slept s' = slept s.
Proof.
  intros HI. unfold heartbeat. simpl.
  unfold tick, logger_info, time_sleep, mbind, M_bind, bind, modify, raise.
  destruct (Z.ltb_spec I 0); [|lia]. by eexists.
Qed.

Lemma negative_interval_ends_heartbeat_witness :
  ∃ s',
    heartbeat (-1) ["1700000000.0"; "1700000010.0"]
      (Server (Catcher.World (Otel.new_span "GET /catch/7") [] [] [] []) [])
    = (Raise negative_sleep, s')
    ∧ Catcher.log (handler s') = [heartbeat_record "1700000000.0"]
    ∧ slept s' = [].
Proof.
  destruct (negative_interval_ends_heartbeat (-1) "1700000000.0" ["1700000010.0"]
              (Server (Catcher.World (Otel.new_span "GET /catch/7") [] [] [] []) []))
    as (s' & Hh & Hl & Hs); [lia|].
  exists s'. repeat split; assumption.
Defined.

End HeartbeatFacts.

(** ** The invariant of the counters *)

(** C1: every execution of a work unit (one iteration of the loop of the
    poller, whatever its interval and its outcome; one call of the
    handler of the catcher) gives the attempt counter exactly one
    measurement of 1, and exactly one of the success counter and the
    error or failure counter exactly one measurement of 1, the other one
    being left as it was. *)
Theorem counters_once_per_work_unit :
  (∀ I e w,
      let w' := (Poller.iteration I e w).2 in
      incremented_once (Poller.pokemon_fetch_counter w) (Poller.pokemon_fetch_counter w')
      ∧ (incremented_once (Poller.pokemon_fetch_success_counter w)
                          (Poller.pokemon_fetch_success_counter w')
         ∧ Poller.pokemon_fetch_error_counter w' = Poller.pokemon_fetch_error_counter w
         ∨ Poller.pokemon_fetch_success_counter w' = Poller.pokemon_fetch_success_counter w
           ∧ incremented_once (Poller.pokemon_fetch_error_counter w)
                              (Poller.pokemon_fetch_error_counter w')))
  ∧ (∀ pkmn_id draw w,
        let w' := (Catcher.catch pkmn_id draw w).2 in
        incremented_once (Catcher.pokemon_catch_attempt_counter w)
                         (Catcher.pokemon_catch_attempt_counter w')
        ∧ (incremented_once (Catcher.pokemon_catch_success_counter w)
                            (Catcher.pokemon_catch_success_counter w')
           ∧ Catcher.pokemon_catch_failure_counter w'
             = Catcher.pokemon_catch_failure_counter w
           ∨ Catcher.pokemon_catch_success_counter w'
             = Catcher.pokemon_catch_success_counter w
             ∧ incremented_once (Catcher.pokemon_catch_failure_counter w)
                                (Catcher.pokemon_catch_failure_counter w'))).
Proof.
  split.
  - apply iteration_counts_once.
  - apply catch_counts_once.
Qed.
